(** * Walter: budget-controlled payment authorization and resilience

    A shallow embedding of the payment ledger, the budget manager, the
    master treasurer's status reconciliation, the circuit breaker and the
    gateway's fallback dispatch, followed by the properties proved about
    them.

    Conventions of the embedding.
    - Amounts are held by the program as decimal strings and read with
      [BigInt(...)] at every use; the embedding stores the integer such a
      string denotes, as a [Z] (negative integers included: [BigInt("-5")]
      is a valid amount string for the code).
    - [new Date()] and [Date.now()] are inputs: a function that reads the
      clock takes the reading as an argument ([now] in milliseconds,
      [today] for the UTC day key [toISOString().split("T")[0]]).
    - [crypto.randomUUID()] is an input as well.
    - Console output is not part of the state. *)

From Stdlib Require Import ZArith Lia Bool.
From stdpp Require Import gmap strings list fin_maps pretty sorting.

Local Open Scope string_scope.
Local Open Scope list_scope.
Local Open Scope Z_scope.

(* ===================================================================== *)
(** * Part I: the model *)
(* ===================================================================== *)

(** ** Insertion-ordered maps

    A JavaScript [Map] iterates in insertion order and [set] on a key that
    is present keeps the key's position.  The ledger's entry map is
    iterated (sums, export), so it is kept as an association list. *)
Module JsMap.

Definition t (V : Type) : Type := list (string * V).

Fixpoint get {V} (k : string) (m : t V) : option V :=
  match m with
  | [] => None
  | (k', v) :: rest => if String.eqb k k' then Some v else get k rest
  end.

Fixpoint set {V} (k : string) (v : V) (m : t V) : t V :=
  match m with
  | [] => [(k, v)]
  | (k', v') :: rest =>
      if String.eqb k k' then (k', v) :: rest else (k', v') :: set k v rest
  end.

Definition keys {V} (m : t V) : list string := map fst m.
Definition values {V} (m : t V) : list V := map snd m.

Fixpoint delete {V} (k : string) (m : t V) : t V :=
  match m with
  | [] => []
  | (k', v') :: rest =>
      if String.eqb k k' then rest else (k', v') :: delete k rest
  end.

End JsMap.

(** ** src/types/index.ts and the payment ledger *)
Module Ledger.

(** [PaymentEntry["status"]] *)
Inductive Status : Type := Pending | Accepted | Rejected | Error.

Definition Status_eqb (a b : Status) : bool :=
  match a, b with
  | Pending, Pending | Accepted, Accepted
  | Rejected, Rejected | Error, Error => true
  | _, _ => false
  end.

(** [PaymentRequirements] (x402): the ledger reads [maxAmountRequired];
    the other fields travel unread and are kept as one payload. *)
Record PaymentRequirements : Type := mkRequirements {
  maxAmountRequired : Z;
  req_payload : string
}.

(** [PaymentPayload] (x402) is never inspected. *)
Definition PaymentPayload : Type := string.

Record PaymentEntry : Type := mkEntry {
  e_id : string;
  e_timestamp : Z;
  e_agentId : string;
  e_toolName : string;
  e_amount : Z;
  e_status : Status;
  e_requirements : option PaymentRequirements;
  e_payment : option PaymentPayload;
  e_error : option string
}.

Record PaymentLedger : Type := mkLedger {
  entries : JsMap.t PaymentEntry;
  dailySpending : gmap string Z
}.

Definition empty : PaymentLedger := mkLedger [] ∅.

Definition recordAuthorization (now : Z) (id agentId toolName : string)
    (requirements : PaymentRequirements) (payment : PaymentPayload)
    (L : PaymentLedger) : PaymentLedger :=
  let entry :=
    {| e_id := id; e_timestamp := now; e_agentId := agentId;
       e_toolName := toolName;
       e_amount := maxAmountRequired requirements;
       e_status := Pending;
       e_requirements := Some requirements;
       e_payment := Some payment;
       e_error := None |} in
  mkLedger (JsMap.set id entry (entries L)) (dailySpending L).

(** [if (!today) return]: the empty day key is skipped. *)
Definition addToDailySpending (today : string) (amount : Z)
    (L : PaymentLedger) : PaymentLedger :=
  if String.eqb today "" then L
  else
    let current := default 0 (dailySpending L !! today) in
    mkLedger (entries L) (<[today := current + amount]> (dailySpending L)).

(** [if (error)]: an absent or empty error text leaves the field alone. *)
Definition set_error (error : option string) (entry : PaymentEntry)
    : PaymentEntry :=
  match error with
  | Some msg =>
      if String.eqb msg "" then entry
      else
        {| e_id := e_id entry; e_timestamp := e_timestamp entry;
           e_agentId := e_agentId entry; e_toolName := e_toolName entry;
           e_amount := e_amount entry; e_status := e_status entry;
           e_requirements := e_requirements entry;
           e_payment := e_payment entry; e_error := Some msg |}
  | None => entry
  end.

Definition set_status (status : Status) (entry : PaymentEntry)
    : PaymentEntry :=
  {| e_id := e_id entry; e_timestamp := e_timestamp entry;
     e_agentId := e_agentId entry; e_toolName := e_toolName entry;
     e_amount := e_amount entry; e_status := status;
     e_requirements := e_requirements entry;
     e_payment := e_payment entry; e_error := e_error entry |}.

(** The entry object is mutated where it sits in the map. *)
Definition updateStatus (today : string) (id : string) (status : Status)
    (error : option string) (L : PaymentLedger) : PaymentLedger :=
  match JsMap.get id (entries L) with
  | None => L
  | Some entry =>
      let entry' := set_error error (set_status status entry) in
      let L1 := mkLedger (JsMap.set id entry' (entries L)) (dailySpending L) in
      if Status_eqb status Accepted
      then addToDailySpending today (e_amount entry') L1
      else L1
  end.

Definition getEntry (id : string) (L : PaymentLedger) : option PaymentEntry :=
  JsMap.get id (entries L).

Definition getEntriesByAgent (agentId : string) (L : PaymentLedger)
    : list PaymentEntry :=
  filter (λ e, e_agentId e = agentId) (JsMap.values (entries L)).

(** The [for ... of this.entries.values()] accumulation loops. *)
Definition sum_entries (keep : PaymentEntry → bool) (es : list PaymentEntry)
    : Z :=
  fold_left (λ total e, if keep e then total + e_amount e else total) es 0.

Definition getTotalSpent (L : PaymentLedger) : Z :=
  sum_entries (λ e, Status_eqb (e_status e) Accepted)
              (JsMap.values (entries L)).

Definition getSpentByAgent (agentId : string) (L : PaymentLedger) : Z :=
  sum_entries (λ e, String.eqb (e_agentId e) agentId
                    && Status_eqb (e_status e) Accepted)
              (JsMap.values (entries L)).

Definition getTodaySpending (today : string) (L : PaymentLedger) : Z :=
  default 0 (dailySpending L !! today).

(** The persistence document
    [{ entries: PaymentEntry[], dailySpending: Record<string, string> }].
    [JSON.stringify] followed by [JSON.parse] returns this document:
    timestamps travel as ISO strings and are rebuilt with [new Date],
    absent optional fields stay absent. *)
Record LedgerDoc : Type := mkDoc {
  doc_entries : list PaymentEntry;
  doc_dailySpending : gmap string Z
}.

Definition exportToJson (L : PaymentLedger) : LedgerDoc :=
  mkDoc (JsMap.values (entries L)) (dailySpending L).

(** [this.entries.clear()], then one [set(entry.id, entry)] per entry of
    the document, then a new daily map. *)
Definition importFromJson (data : LedgerDoc) (L : PaymentLedger)
    : PaymentLedger :=
  mkLedger
    (fold_left (λ m entry, JsMap.set (e_id entry) entry m)
               (doc_entries data) [])
    (doc_dailySpending data).

(** The ledgers the class can hold: built from the empty one by its
    public operations. *)
Inductive reachable : PaymentLedger → Prop :=
| reach_empty : reachable empty
| reach_record now id agentId toolName requirements payment L :
    reachable L →
    reachable (recordAuthorization now id agentId toolName requirements
                 payment L)
| reach_update today id status error L :
    reachable L → reachable (updateStatus today id status error L)
| reach_import data L :
    reachable L → reachable (importFromJson data L).

(** The entry map's shape: one entry per key, filed under its own id. *)
Definition ledger_wf (L : PaymentLedger) : Prop :=
  NoDup (JsMap.keys (entries L))
  ∧ Forall (λ kv, e_id (snd kv) = fst kv) (entries L).

(** [Array.prototype.sort] is stable.  Under the comparator
    [(a, b) => b.timestamp - a.timestamp] an entry precedes the entries
    that are not strictly later than it, and entries of equal timestamp
    keep their order.  [insert_recent e sorted] places [e], which stood
    before all of [sorted] in the array, into the sorted tail. *)
Fixpoint insert_recent (e : PaymentEntry) (sorted : list PaymentEntry)
    : list PaymentEntry :=
  match sorted with
  | [] => [e]
  | x :: rest =>
      if e_timestamp e <? e_timestamp x
      then x :: insert_recent e rest
      else e :: x :: rest
  end.

Definition sort_recent (es : list PaymentEntry) : list PaymentEntry :=
  foldr insert_recent [] es.

(** The order of a list sorted from the latest entry on. *)
Definition later_or_equal (a b : PaymentEntry) : Prop :=
  e_timestamp b ≤ e_timestamp a.

(** [array.slice(0, limit)] for an integer [limit]: a negative limit
    counts from the end. *)
Definition slice_to {A} (limit : Z) (l : list A) : list A :=
  if limit <? 0
  then take (Z.to_nat (Z.of_nat (length l) + limit)) l
  else take (Z.to_nat limit) l.

(** [getRecentEntries(limit = 10)]; [None] is the omitted argument. *)
Definition getRecentEntries (limit : option Z) (L : PaymentLedger)
    : list PaymentEntry :=
  slice_to (default 10 limit) (sort_recent (JsMap.values (entries L))).

(** The last entry of a document filed under [id]. *)
Definition last_with_id (id : string) (es : list PaymentEntry)
    : option PaymentEntry :=
  last (List.filter (λ e, String.eqb (e_id e) id) es).

(** What one entry adds to a sum that keeps the entries [keep] selects. *)
Definition part (keep : PaymentEntry → bool) (e : PaymentEntry) : Z :=
  if keep e then e_amount e else 0.

End Ledger.

(** ** The budget manager *)
Module Budget.

Record BudgetConfig : Type := mkConfig {
  totalBudget : Z;
  dailyLimit : Z;
  perRequestLimit : Z;
  autoApproveUnder : Z
}.

Record AgentBudgetAllocation : Type := mkAllocation {
  a_agentId : string;
  allocated : Z;
  reserved : Z
}.

(** The manager owns the allocation table and its configuration; the
    ledger it reads is the treasurer's, passed to every operation that
    consults it. *)
Record BudgetManager : Type := mkManager {
  config : BudgetConfig;
  agentAllocations : gmap string AgentBudgetAllocation
}.

Definition allocateToAgent (agentId : string) (amount : Z)
    (B : BudgetManager) : BudgetManager :=
  mkManager (config B)
    (<[agentId := mkAllocation agentId amount 0]> (agentAllocations B)).

(** The denial texts are fixed sentences around the dollar rendering
    ([baseUnitsToUsdc(limit).toFixed(2)]) of one limit; a reason is kept
    as the sentence it selects and the limit it prints. *)
Inductive Reason : Type :=
| ExceedsPerRequestLimit (limit : Z)
    (* "Amount exceeds per-request limit of $... USDC" *)
| WouldExceedDailyLimit (limit : Z)
    (* "Would exceed daily limit of $... USDC" *)
| WouldExceedTotalBudget (limit : Z)
    (* "Would exceed total budget of $... USDC" *)
| WouldExceedAgentAllocation (limit : Z).
    (* "Would exceed agent budget allocation of $... USDC" *)

Record Approval : Type := mkApproval {
  allowed : bool;
  reason : option Reason
}.

Definition deny (r : Reason) : Approval := mkApproval false (Some r).
Definition allow : Approval := mkApproval true None.

Definition canApprove (today : string) (ledger : Ledger.PaymentLedger)
    (B : BudgetManager) (agentId : string) (amount : Z) : Approval :=
  if amount >? perRequestLimit (config B)
  then deny (ExceedsPerRequestLimit (perRequestLimit (config B)))
  else
    let todaySpending := Ledger.getTodaySpending today ledger in
    if todaySpending + amount >? dailyLimit (config B)
    then deny (WouldExceedDailyLimit (dailyLimit (config B)))
    else
      let totalSpent := Ledger.getTotalSpent ledger in
      if totalSpent + amount >? totalBudget (config B)
      then deny (WouldExceedTotalBudget (totalBudget (config B)))
      else
        match agentAllocations B !! agentId with
        | Some allocation =>
            let agentSpent := Ledger.getSpentByAgent agentId ledger in
            let agentReserved := reserved allocation in
            let agentAvailable :=
              allocated allocation - agentSpent - agentReserved in
            if amount >? agentAvailable
            then deny (WouldExceedAgentAllocation (allocated allocation))
            else allow
        | None => allow
        end.

Definition isAutoApprovable (B : BudgetManager) (amount : Z) : bool :=
  amount <=? autoApproveUnder (config B).

(** [reserve] returns the token ([uuid], what [crypto.randomUUID()]
    yields) or [null], and the manager after the call. *)
Definition reserve (today : string) (ledger : Ledger.PaymentLedger)
    (uuid : string) (agentId : string) (amount : Z) (B : BudgetManager)
    : option string * BudgetManager :=
  match agentAllocations B !! agentId with
  | None =>
      let check := canApprove today ledger B agentId amount in
      if negb (allowed check) then (None, B) else (Some uuid, B)
  | Some allocation =>
      let check := canApprove today ledger B agentId amount in
      if negb (allowed check) then (None, B)
      else
        (Some uuid,
         mkManager (config B)
           (<[agentId := mkAllocation (a_agentId allocation)
                           (allocated allocation)
                           (reserved allocation + amount)]>
              (agentAllocations B)))
  end.

Definition releaseReservation (agentId : string) (amount : Z)
    (B : BudgetManager) : BudgetManager :=
  match agentAllocations B !! agentId with
  | Some allocation =>
      let reserved_ := reserved allocation in
      let release := amount in
      mkManager (config B)
        (<[agentId := mkAllocation (a_agentId allocation)
                        (allocated allocation)
                        (if reserved_ >? release
                         then reserved_ - release else 0)]>
           (agentAllocations B))
  | None => B
  end.

(** The counter the invariants speak about; [None] without allocation. *)
Definition reservedOf (agentId : string) (B : BudgetManager) : option Z :=
  reserved <$> agentAllocations B !! agentId.

(** Calls on a manager, each with the inputs it reads: the ledger may
    differ from one call to the next. *)
Inductive Op : Type :=
| Allocate (agentId : string) (amount : Z)
| Reserve (today : string) (ledger : Ledger.PaymentLedger) (uuid : string)
    (agentId : string) (amount : Z)
| Release (agentId : string) (amount : Z).

Definition step (B : BudgetManager) (op : Op) : BudgetManager :=
  match op with
  | Allocate agentId amount => allocateToAgent agentId amount B
  | Reserve today ledger uuid agentId amount =>
      snd (reserve today ledger uuid agentId amount B)
  | Release agentId amount => releaseReservation agentId amount B
  end.

Definition run (ops : list Op) (B : BudgetManager) : BudgetManager :=
  fold_left step ops B.

Definition reserved_nonneg (B : BudgetManager) : Prop :=
  ∀ agentId allocation,
    agentAllocations B !! agentId = Some allocation →
    0 ≤ reserved allocation.

Definition reserve_amount_nonneg (op : Op) : Prop :=
  match op with
  | Reserve _ _ _ _ amount => 0 ≤ amount
  | _ => True
  end.

Definition is_allocate (op : Op) : bool :=
  match op with
  | Allocate _ _ => true
  | _ => false
  end.

End Budget.

(** ** The master treasurer: status reconciliation *)
Module Treasurer.

Record PendingContext : Type := mkContext {
  c_agentId : string;
  c_toolName : string
}.

Record Authorization : Type := mkAuthorization {
  payment : Ledger.PaymentPayload;
  authorizationId : string
}.

Record MasterTreasurer : Type := mkTreasurer {
  budgetManager : Budget.BudgetManager;
  ledger : Ledger.PaymentLedger;
  pendingContexts : gmap string PendingContext
}.

(** [PaymentStatus] arrives as a string; the [switch] compares it with
    four literals and falls through to ["pending"] otherwise. *)
Definition ledgerStatusOf (status : string) : Ledger.Status :=
  if String.eqb status "accepted" then Ledger.Accepted
  else if String.eqb status "rejected" then Ledger.Rejected
  else if String.eqb status "declined" then Ledger.Rejected
  else if String.eqb status "error" then Ledger.Error
  else Ledger.Pending.

(** [["accepted", "rejected", "declined", "error"].includes(status)] *)
Definition terminal_vocabulary : list string :=
  ["accepted"; "rejected"; "declined"; "error"].

Definition isTerminalStatus (status : string) : bool :=
  existsb (String.eqb status) terminal_vocabulary.

Definition onStatus (today : string) (status : string)
    (authorization : Authorization) (T : MasterTreasurer)
    : MasterTreasurer :=
  let id := authorizationId authorization in
  let pendingContext := pendingContexts T !! id in
  let ledgerStatus := ledgerStatusOf status in
  let ledger1 := Ledger.updateStatus today id ledgerStatus None (ledger T) in
  let budget1 :=
    if negb (String.eqb status "accepted")
       && negb (String.eqb status "sending")
    then
      match pendingContext with
      | Some ctx =>
          match Ledger.getEntry id ledger1 with
          | Some entry =>
              Budget.releaseReservation (c_agentId ctx)
                (Ledger.e_amount entry) (budgetManager T)
          | None => budgetManager T
          end
      | None => budgetManager T
      end
    else budgetManager T in
  let pending1 :=
    if isTerminalStatus status
    then delete id (pendingContexts T)
    else pendingContexts T in
  mkTreasurer budget1 ledger1 pending1.

Definition allocateBudgetToAgent (agentId : string) (amount : Z)
    (T : MasterTreasurer) : MasterTreasurer :=
  mkTreasurer (Budget.allocateToAgent agentId amount (budgetManager T))
    (ledger T) (pendingContexts T).

Section Authorize.
(** The values found in a payment context are arbitrary JavaScript
    values; the code tests their truthiness and renders them with
    [String(...)]. *)
Context {Value : Type}.
Variable truthy : Value → bool.
Variable toString : Value → string.

(** The fields of the SDK's [PaymentContext] that are read: [method],
    and the property bags [params] and [metadata]. *)
Record PaymentContext : Type := mkPaymentContext {
  ctx_method : option string;
  ctx_params : option (gmap string Value);
  ctx_metadata : option (gmap string Value)
}.

(** [bag?.key], when it is truthy *)
Definition truthyProp (bag : option (gmap string Value)) (key : string)
    : option Value :=
  match bag ≫= (λ b, b !! key) with
  | Some v => if truthy v then Some v else None
  | None => None
  end.

Definition extractAgentId (context : option PaymentContext) : string :=
  match context with
  | None => "unknown"
  | Some c =>
      match truthyProp (ctx_metadata c) "agentId" with
      | Some v => toString v
      | None =>
          match truthyProp (ctx_params c) "agentId" with
          | Some v => toString v
          | None => "unknown"
          end
      end
  end.

Definition extractToolName (context : option PaymentContext) : string :=
  match context with
  | None => "unknown"
  | Some c =>
      let viaCall :=
        match ctx_method c with
        | Some m =>
            if String.eqb m "tools/call"
            then truthyProp (ctx_params c) "name" else None
        | None => None
        end in
      match viaCall with
      | Some v => toString v
      | None =>
          match truthyProp (ctx_metadata c) "toolName" with
          | Some v => toString v
          | None => "unknown"
          end
      end
  end.

(** [onPaymentRequired].  [wallet] is what awaiting
    [wallet.createPayment(requirement)] yields ([None] when it throws);
    [today] is the day key read by the budget checks, [now] the clock
    when the authorization is recorded, [reservationId] and
    [authorizationId] the two values [crypto.randomUUID()] returns. *)
Definition onPaymentRequired
    (wallet : Ledger.PaymentRequirements → option Ledger.PaymentPayload)
    (today : string) (now : Z) (reservationId authorizationId : string)
    (requirements : list Ledger.PaymentRequirements)
    (context : option PaymentContext) (T : MasterTreasurer)
    : option Authorization * MasterTreasurer :=
  match requirements with
  | [] => (None, T)
  | requirement :: _ =>
      let amount := Ledger.maxAmountRequired requirement in
      let agentId := extractAgentId context in
      let toolName := extractToolName context in
      let budgetCheck :=
        Budget.canApprove today (ledger T) (budgetManager T) agentId amount in
      if negb (Budget.allowed budgetCheck) then (None, T)
      else
        match Budget.reserve today (ledger T) reservationId agentId amount
                (budgetManager T) with
        | (None, B1) => (None, mkTreasurer B1 (ledger T) (pendingContexts T))
        | (Some _, B1) =>
            match wallet requirement with
            | Some payment =>
                (Some (mkAuthorization payment authorizationId),
                 mkTreasurer B1
                   (Ledger.recordAuthorization now authorizationId agentId
                      toolName requirement payment (ledger T))
                   (<[authorizationId := mkContext agentId toolName]>
                      (pendingContexts T)))
            | None =>
                (None,
                 mkTreasurer (Budget.releaseReservation agentId amount B1)
                   (ledger T) (pendingContexts T))
            end
        end
  end.

End Authorize.

End Treasurer.

(** ** The circuit breaker *)
Module Breaker.

Record CircuitBreakerConfig : Type := mkConfig {
  failureThreshold : Z;
  successThreshold : Z;
  timeout : Z
}.

(** [Partial<CircuitBreakerConfig>] *)
Record PartialConfig : Type := mkPartial {
  p_failureThreshold : option Z;
  p_successThreshold : option Z;
  p_timeout : option Z
}.

Inductive CircuitState : Type := Closed | Open | HalfOpen.

Definition CircuitState_eqb (a b : CircuitState) : bool :=
  match a, b with
  | Closed, Closed | Open, Open | HalfOpen, HalfOpen => true
  | _, _ => false
  end.

(** The counters start at 0 and are only incremented or zeroed. *)
Record CircuitBreaker : Type := mkBreaker {
  name : string;
  state : CircuitState;
  failures : nat;
  successes : nat;
  lastFailure : option Z;
  config : CircuitBreakerConfig
}.

(** The constructor: [config?.field ?? default]. *)
Definition new (name : string) (cfg : option PartialConfig)
    : CircuitBreaker :=
  {| name := name; state := Closed; failures := 0; successes := 0;
     lastFailure := None;
     config :=
       {| failureThreshold := default 5 (cfg ≫= p_failureThreshold);
          successThreshold := default 2 (cfg ≫= p_successThreshold);
          timeout := default 30000 (cfg ≫= p_timeout) |} |}.

Definition set_state (s : CircuitState) (cb : CircuitBreaker)
    : CircuitBreaker :=
  {| name := name cb; state := s; failures := failures cb;
     successes := successes cb; lastFailure := lastFailure cb;
     config := config cb |}.

Definition shouldAttemptReset (now : Z) (cb : CircuitBreaker) : bool :=
  match lastFailure cb with
  | None => true
  | Some t => let elapsed := now - t in elapsed >=? timeout (config cb)
  end.

Definition getTimeUntilReset (now : Z) (cb : CircuitBreaker) : Z :=
  match lastFailure cb with
  | None => 0
  | Some t => let elapsed := now - t in
              Z.max 0 (timeout (config cb) - elapsed)
  end.

Definition onSuccess (cb : CircuitBreaker) : CircuitBreaker :=
  let cb1 :=
    {| name := name cb; state := state cb; failures := 0;
       successes := successes cb; lastFailure := lastFailure cb;
       config := config cb |} in
  if CircuitState_eqb (state cb1) HalfOpen then
    let cb2 :=
      {| name := name cb1; state := state cb1; failures := failures cb1;
         successes := S (successes cb1); lastFailure := lastFailure cb1;
         config := config cb1 |} in
    if Z.of_nat (successes cb2) >=? successThreshold (config cb2) then
      {| name := name cb2; state := Closed; failures := failures cb2;
         successes := 0; lastFailure := lastFailure cb2;
         config := config cb2 |}
    else cb2
  else cb1.

Definition onFailure (now : Z) (cb : CircuitBreaker) : CircuitBreaker :=
  let cb1 :=
    {| name := name cb; state := state cb; failures := S (failures cb);
       successes := 0; lastFailure := Some now; config := config cb |} in
  if CircuitState_eqb (state cb1) HalfOpen then set_state Open cb1
  else if CircuitState_eqb (state cb1) Closed
          && (Z.of_nat (failures cb1) >=? failureThreshold (config cb1))
  then set_state Open cb1
  else cb1.

(** What the awaited [operation()] does when it is invoked. *)
Inductive Outcome (T E : Type) : Type :=
| Resolved (value : T)
| Threw (error : E).
Arguments Resolved {T E} value.
Arguments Threw {T E} error.

(** What [execute] does: return the value, rethrow the operation's
    error, or throw [CircuitOpenError(name, retryAfterMs)]. *)
Inductive ExecResult (T E : Type) : Type :=
| Returned (value : T)
| Rethrown (error : E)
| CircuitOpenError (circuitName : string) (retryAfterMs : Z).
Arguments Returned {T E} value.
Arguments Rethrown {T E} error.
Arguments CircuitOpenError {T E} circuitName retryAfterMs.

(** The first statement of [execute]: open and cooled down becomes
    half-open. *)
Definition gate (now : Z) (cb : CircuitBreaker) : CircuitBreaker :=
  if CircuitState_eqb (state cb) Open && shouldAttemptReset now cb
  then set_state HalfOpen cb
  else cb.

(** One [execute] call.  [now] is the clock when the call starts,
    [operation] what the operation does if it is invoked, [done] the
    clock when a failure is recorded.  An open circuit does not invoke
    the operation. *)
Definition execute {T E} (now : Z) (operation : Outcome T E) (done : Z)
    (cb : CircuitBreaker) : ExecResult T E * CircuitBreaker :=
  let cb1 := gate now cb in
  if CircuitState_eqb (state cb1) Open
  then (CircuitOpenError (name cb1) (getTimeUntilReset now cb1), cb1)
  else
    match operation with
    | Resolved result => (Returned result, onSuccess cb1)
    | Threw error => (Rethrown error, onFailure done cb1)
    end.

Definition reset (cb : CircuitBreaker) : CircuitBreaker :=
  {| name := name cb; state := Closed; failures := 0; successes := 0;
     lastFailure := None; config := config cb |}.

(** A call as the breaker sees it. *)
Record Call (T E : Type) : Type := mkCall {
  call_now : Z;
  call_operation : Outcome T E;
  call_done : Z
}.
Arguments mkCall {T E}.
Arguments call_now {T E}.
Arguments call_operation {T E}.
Arguments call_done {T E}.

Definition throws {T E} (c : Call T E) : bool :=
  match call_operation c with Threw _ => true | Resolved _ => false end.

Definition resolves {T E} (c : Call T E) : bool :=
  match call_operation c with Resolved _ => true | Threw _ => false end.

(** After [k] consecutive failures from closed the breaker is open, or
    still closed with at least [k] failures counted. *)
Definition counted (k : nat) (cb : CircuitBreaker) : Prop :=
  state cb = Open ∨ (state cb = Closed ∧ (k ≤ failures cb)%nat).

(** What holds of a breaker between calls: the success counter is
    in use only while half-open and stays below its threshold, a closed
    breaker has fewer failures than its threshold, and an open or
    half-open breaker knows when it last failed. *)
Definition consistent (cb : CircuitBreaker) : Prop :=
  match state cb with
  | Closed =>
      successes cb = 0%nat
      ∧ Z.of_nat (failures cb) < failureThreshold (config cb)
  | Open => successes cb = 0%nat ∧ is_Some (lastFailure cb)
  | HalfOpen =>
      Z.of_nat (successes cb) < successThreshold (config cb)
      ∧ is_Some (lastFailure cb)
  end.

(** Consecutive [execute] calls on one breaker. *)
Definition run {T E} (calls : list (Call T E)) (cb : CircuitBreaker)
    : CircuitBreaker :=
  fold_left
    (λ cb c, snd (execute (call_now c) (call_operation c) (call_done c) cb))
    calls cb.

End Breaker.

(** ** The registry, as the gateway reads it *)
Module Registry.

Inductive AgentStatus : Type := Healthy | Degraded | Offline.

Definition AgentStatus_eqb (a b : AgentStatus) : bool :=
  match a, b with
  | Healthy, Healthy | Degraded, Degraded | Offline, Offline => true
  | _, _ => false
  end.

Record ToolDescriptor : Type := mkTool {
  t_name : string;
  t_description : string
}.

(** The fields of [SubAgentDescriptor] the gateway can see. *)
Record SubAgentDescriptor : Type := mkAgent {
  d_id : string;
  d_name : string;
  d_url : string;
  d_status : AgentStatus;
  d_tools : list ToolDescriptor
}.

(** One item of [CallToolResult.content]. *)
Record Content : Type := mkContent {
  c_type : string;
  c_text : string
}.

Record CallToolResult : Type := mkCallToolResult {
  isError : bool;
  content : list Content
}.

(** A thrown value: an [Error] with its message, or anything else. *)
Inductive Thrown : Type :=
| ErrorObject (message : string)
| OtherValue.

(** What awaiting [client.callTool] yields and the clock when it does. *)
Record Response : Type := mkResponse {
  r_outcome : Breaker.Outcome CallToolResult Thrown;
  r_finished : Z
}.

Section WithArgs.
Context {Args : Type}.

(** A connected MCP client is known by what a call through it yields:
    tool name, arguments and the clock at the call decide the
    response. *)
Definition Client : Type := string → Args → Z → Response.

Record SubAgentRegistry : Type := mkRegistry {
  agents : gmap string SubAgentDescriptor;
  clients : gmap string Client
}.

Definition getClient (agentId : string) (R : SubAgentRegistry)
    : option Client :=
  clients R !! agentId.

Definition getAgent (agentId : string) (R : SubAgentRegistry)
    : option SubAgentDescriptor :=
  agents R !! agentId.
End WithArgs.
Arguments Client : clear implicits.
Arguments SubAgentRegistry : clear implicits.

End Registry.

(** ** The gateway *)
Module Gateway.
Import Registry.

Record GatewayConfig : Type := mkGatewayConfig {
  defaultTimeout : Z;
  circuitBreaker : option Breaker.PartialConfig
}.

Section WithJson.
(** [args] is an opaque record; [JSON.parse] is the host's parser
    ([None] where it throws). *)
Context {Args Json : Type}.
Variable JSON_parse : string → option Json.

(** [ToolResult.data] is the reply text, or the value parsed from it. *)
Inductive Data : Type :=
| Text (s : string)
| Parsed (j : Json).

Record ToolResult : Type := mkToolResult {
  success : bool;
  data : option Data;
  error : option string
}.

Definition failure (msg : string) : ToolResult :=
  mkToolResult false None (Some msg).

Record SubAgentGateway : Type := mkGateway {
  registry : SubAgentRegistry Args;
  circuitBreakers : gmap string Breaker.CircuitBreaker;
  config : GatewayConfig
}.

(** The gateway and the clock it runs against. *)
Record World : Type := mkWorld {
  gateway : SubAgentGateway;
  now : Z
}.

(** Get or create the breaker of an agent; a created breaker is
    stored. *)
Definition getCircuitBreaker (agentId : string) (G : SubAgentGateway)
    : Breaker.CircuitBreaker * SubAgentGateway :=
  match circuitBreakers G !! agentId with
  | Some cb => (cb, G)
  | None =>
      let cb := Breaker.new agentId (circuitBreaker (config G)) in
      (cb, mkGateway (registry G)
             (<[agentId := cb]> (circuitBreakers G)) (config G))
  end.

(** [content.filter(text).map(c => c.text).join("\n")] *)
Definition textOf (r : CallToolResult) : string :=
  String.concat (String (Ascii.ascii_of_nat 10) EmptyString)
    (map c_text
       (List.filter (λ c, String.eqb (c_type c) "text") (content r))).

(** [Math.ceil(retryAfterMs / 1000)] on an integer number of ms. *)
Definition ceilSeconds (retryAfterMs : Z) : Z :=
  (retryAfterMs + 999) / 1000.

(** The message of a [CircuitOpenError]. *)
Definition circuitOpenMessage (circuitName : string) (retryAfterMs : Z)
    : string :=
  ("Circuit breaker '" ++ circuitName ++ "' is open. Retry after "
     ++ pretty (ceilSeconds retryAfterMs) ++ "s")%string.

Definition parseResult (result : CallToolResult) : ToolResult :=
  if isError result then
    let text := textOf result in
    failure (if String.eqb text "" then "Tool returned an error" else text)
  else
    let textContent := textOf result in
    let data :=
      if String.prefix "{" textContent || String.prefix "[" textContent
      then match JSON_parse textContent with
           | Some j => Parsed j
           | None => Text textContent
           end
      else Text textContent in
    mkToolResult true (Some data) None.

Definition callTool (agentId toolName : string) (args : Args)
    (w : World) : ToolResult * World :=
  let G := gateway w in
  match getAgent agentId (registry G) with
  | None => (failure ("Agent not found: " ++ agentId)%string, w)
  | Some agent =>
      match getClient agentId (registry G) with
      | None =>
          (failure ("No connection to agent: " ++ agentId)%string, w)
      | Some client =>
          let '(cb, G1) := getCircuitBreaker agentId G in
          let response := client toolName args (now w) in
          let '(outcome, cb') :=
            Breaker.execute (now w) (r_outcome response)
              (r_finished response) cb in
          let G2 :=
            mkGateway (registry G1)
              (<[agentId := cb']> (circuitBreakers G1)) (config G1) in
          match outcome with
          | Breaker.Returned result =>
              (parseResult result, mkWorld G2 (r_finished response))
          | Breaker.CircuitOpenError circuitName retryAfterMs =>
              (failure ("Agent " ++ agentId
                        ++ " is temporarily unavailable. "
                        ++ circuitOpenMessage circuitName retryAfterMs)%string,
               mkWorld G2 (now w))
          | Breaker.Rethrown (ErrorObject message) =>
              (failure message, mkWorld G2 (r_finished response))
          | Breaker.Rethrown OtherValue =>
              (failure "Unknown error occurred",
               mkWorld G2 (r_finished response))
          end
      end
  end.

Definition allFailed (primaryAgentId toolName : string) : ToolResult :=
  failure ("All agents failed for tool " ++ toolName
           ++ ". Primary: " ++ primaryAgentId)%string.

(** The [for (const fallbackId of fallbackAgentIds)] loop and the
    statement after it. *)
Fixpoint tryFallbacks (primaryAgentId toolName : string) (args : Args)
    (fallbackAgentIds : list string) (w : World) : ToolResult * World :=
  match fallbackAgentIds with
  | [] => (allFailed primaryAgentId toolName, w)
  | fallbackId :: rest =>
      match getAgent fallbackId (registry (gateway w)) with
      | None => tryFallbacks primaryAgentId toolName args rest w
      | Some fallbackAgent =>
          if negb (AgentStatus_eqb (d_status fallbackAgent) Healthy)
          then tryFallbacks primaryAgentId toolName args rest w
          else
            let hasTool :=
              existsb (λ t, String.eqb (t_name t) toolName)
                      (d_tools fallbackAgent) in
            if negb hasTool
            then tryFallbacks primaryAgentId toolName args rest w
            else
              let '(fallbackResult, w') :=
                callTool fallbackId toolName args w in
              if success fallbackResult then (fallbackResult, w')
              else tryFallbacks primaryAgentId toolName args rest w'
      end
  end.

Definition callToolWithFallback (primaryAgentId toolName : string)
    (args : Args) (fallbackAgentIds : list string) (w : World)
    : ToolResult * World :=
  let '(primaryResult, w1) := callTool primaryAgentId toolName args w in
  if success primaryResult then (primaryResult, w1)
  else tryFallbacks primaryAgentId toolName args fallbackAgentIds w1.

(** *** The dispatch as the specification words it

    A fallback qualifies when the registry has its descriptor, the
    descriptor is healthy and it exposes the operation.  The
    candidates are the primary followed by the qualifying fallbacks
    in the given order; the first success among them is returned,
    and a failure naming the primary when there is none. *)
Definition qualifies (R : SubAgentRegistry Args) (toolName : string)
    (id : string) : bool :=
  match getAgent id R with
  | None => false
  | Some agent =>
      AgentStatus_eqb (d_status agent) Healthy
      && existsb (λ t, String.eqb (t_name t) toolName) (d_tools agent)
  end.

Fixpoint firstSuccess (toolName : string) (args : Args)
    (candidates : list string) (w : World)
    : option ToolResult * World :=
  match candidates with
  | [] => (None, w)
  | id :: rest =>
      let '(r, w') := callTool id toolName args w in
      if success r then (Some r, w')
      else firstSuccess toolName args rest w'
  end.

Definition spec_callToolWithFallback (primaryAgentId toolName : string)
    (args : Args) (fallbackAgentIds : list string) (w : World)
    : ToolResult * World :=
  let candidates :=
    primaryAgentId
      :: List.filter (qualifies (registry (gateway w)) toolName)
           fallbackAgentIds in
  match firstSuccess toolName args candidates w with
  | (Some r, w') => (r, w')
  | (None, w') => (allFailed primaryAgentId toolName, w')
  end.

(** What [callTool] returns for a call that was let through: the
    parsed reply, or the thrown error's message. *)
Definition reported (response : Response) : ToolResult :=
  match r_outcome response with
  | Breaker.Resolved result => parseResult result
  | Breaker.Threw (ErrorObject message) => failure message
  | Breaker.Threw OtherValue => failure "Unknown error occurred"
  end.

Definition resetCircuitBreaker (agentId : string) (G : SubAgentGateway)
    : SubAgentGateway :=
  match circuitBreakers G !! agentId with
  | Some cb =>
      mkGateway (registry G)
        (<[agentId := Breaker.reset cb]> (circuitBreakers G)) (config G)
  | None => G
  end.

Definition resetAllCircuitBreakers (G : SubAgentGateway) : SubAgentGateway :=
  mkGateway (registry G) (Breaker.reset <$> circuitBreakers G) (config G).

End WithJson.

End Gateway.

(** ** The intent router's choice of fallbacks *)
Module Router.
Import Registry.


End Router.

(** ** The session manager *)
Module Session.

Inductive Role : Type := User | Assistant | System.

Section WithValue.
(** Session variables and message metadata hold arbitrary values. *)
Context {Value : Type}.

Record Message : Type := mkMessage {
  m_role : Role;
  m_content : string;
  m_timestamp : Z;
  m_metadata : option (gmap string Value)
}.

Record Session : Type := mkSession {
  s_id : string;
  createdAt : Z;
  lastActivity : Z;
  messages : list Message;
  subAgentContexts : gmap string string;
  variables : gmap string Value
}.

Record SessionManager : Type := mkSessionManager {
  sessions : JsMap.t Session
}.

Definition maxMessages : nat := 50.
Definition sessionTimeout : Z := 3600000.

Definition touch (now : Z) (s : Session) : Session :=
  mkSession (s_id s) (createdAt s) now (messages s) (subAgentContexts s)
    (variables s).

(** [getOrCreate]: the session, and the manager holding it.  [now] is
    the clock at the call. *)
Definition getOrCreate (now : Z) (sessionId : string) (M : SessionManager)
    : Session * SessionManager :=
  match JsMap.get sessionId (sessions M) with
  | None =>
      let session := mkSession sessionId now now [] ∅ ∅ in
      (session, mkSessionManager (JsMap.set sessionId session (sessions M)))
  | Some session =>
      let session' := touch now session in
      (session', mkSessionManager (JsMap.set sessionId session' (sessions M)))
  end.

Definition get (sessionId : string) (M : SessionManager) : option Session :=
  JsMap.get sessionId (sessions M).

(** [array.slice(start)] for an integer [start]: a negative start
    counts from the end. *)
Definition slice_from {A} (start : Z) (l : list A) : list A :=
  if start <? 0
  then drop (Z.to_nat (Z.of_nat (length l) + start)) l
  else drop (Z.to_nat start) l.

(** [addMessage]: [now] is the clock when the session is fetched,
    [done] when the activity is stamped at the end. *)
Definition addMessage (now done : Z) (sessionId : string)
    (message : Message) (M : SessionManager) : SessionManager :=
  let '(session, M1) := getOrCreate now sessionId M in
  let pushed := messages session ++ [message] in
  let kept :=
    if (maxMessages <? length pushed)%nat
    then slice_from (- Z.of_nat maxMessages) pushed
    else pushed in
  mkSessionManager
    (JsMap.set sessionId
       (mkSession (s_id session) (createdAt session) done kept
          (subAgentContexts session) (variables session))
       (sessions M1)).

(** [getHistory(sessionId, limit?)]: [if (limit)] takes zero for the
    omitted argument. *)
Definition getHistory (sessionId : string) (limit : option Z)
    (M : SessionManager) : list Message :=
  match JsMap.get sessionId (sessions M) with
  | None => []
  | Some session =>
      match limit with
      | Some l => if l =? 0 then messages session
                  else slice_from (- l) (messages session)
      | None => messages session
      end
  end.

Definition setVariable (now : Z) (sessionId key : string) (value : Value)
    (M : SessionManager) : SessionManager :=
  let '(session, M1) := getOrCreate now sessionId M in
  mkSessionManager
    (JsMap.set sessionId
       (mkSession (s_id session) (createdAt session) (lastActivity session)
          (messages session) (subAgentContexts session)
          (<[key := value]> (variables session)))
       (sessions M1)).

Definition getVariable (sessionId key : string) (M : SessionManager)
    : option Value :=
  JsMap.get sessionId (sessions M) ≫= (λ session, variables session !! key).

Definition setSubAgentContext (now : Z) (sessionId agentId contextId : string)
    (M : SessionManager) : SessionManager :=
  let '(session, M1) := getOrCreate now sessionId M in
  mkSessionManager
    (JsMap.set sessionId
       (mkSession (s_id session) (createdAt session) (lastActivity session)
          (messages session)
          (<[agentId := contextId]> (subAgentContexts session))
          (variables session))
       (sessions M1)).

Definition getSubAgentContext (sessionId agentId : string)
    (M : SessionManager) : option string :=
  JsMap.get sessionId (sessions M)
    ≫= (λ session, subAgentContexts session !! agentId).

Definition clear (sessionId : string) (M : SessionManager) : SessionManager :=
  mkSessionManager (JsMap.delete sessionId (sessions M)).

Definition expired (now : Z) (session : Session) : bool :=
  now - lastActivity session >? sessionTimeout.

(** [cleanupExpired]: the loop over the map's entries, deleting as it
    goes and counting; the manager afterwards and the count. *)
Definition cleanupExpired (now : Z) (M : SessionManager)
    : SessionManager * nat :=
  let '(kept, cleaned) :=
    fold_left
      (λ acc entry,
         if expired now (snd entry)
         then (JsMap.delete (fst entry) (fst acc), S (snd acc))
         else acc)
      (sessions M) (sessions M, 0%nat) in
  (mkSessionManager kept, cleaned).

Definition getActiveSessions (M : SessionManager) : list string :=
  JsMap.keys (sessions M).

Definition getSessionCount (M : SessionManager) : nat :=
  length (sessions M).

End WithValue.
Arguments Message : clear implicits.
Arguments Session : clear implicits.
Arguments SessionManager : clear implicits.

End Session.

(** ** Concrete states used as examples *)
Module Scenario.

Definition day : string := "2025-01-15".

Definition req5 : Ledger.PaymentRequirements :=
  Ledger.mkRequirements 5 "exact/base-sepolia".
Definition req7 : Ledger.PaymentRequirements :=
  Ledger.mkRequirements 7 "exact/base-sepolia".

(** One authorization of 5 base units for agent ["A"], still pending. *)
Definition ledger_pending : Ledger.PaymentLedger :=
  Ledger.recordAuthorization 1000 "p1" "A" "read_sensor" req5 "sig-1"
    Ledger.empty.

(** The same entry after it was accepted. *)
Definition ledger_accepted : Ledger.PaymentLedger :=
  Ledger.updateStatus day "p1" Ledger.Accepted None ledger_pending.

(** Two entries, one accepted and one rejected with an error text. *)
Definition ledger_two : Ledger.PaymentLedger :=
  Ledger.updateStatus day "p2" Ledger.Rejected (Some "seller said no")
    (Ledger.recordAuthorization 2000 "p2" "B" "forecast" req7 "sig-2"
       ledger_accepted).

(** The budget of the specification's scenario, in base units:
    total 100.00, daily 10.00, per request 5.00, agent A allocated
    5.00. *)
Definition budget_config : Budget.BudgetConfig :=
  Budget.mkConfig 100000000 10000000 5000000 1000000.

Definition manager_empty : Budget.BudgetManager :=
  Budget.mkManager budget_config ∅.

Definition manager_A : Budget.BudgetManager :=
  Budget.allocateToAgent "A" 5000000 manager_empty.

(** Agent A with 3.00 reserved. *)
Definition manager_A_reserved : Budget.BudgetManager :=
  snd (Budget.reserve day Ledger.empty "token-1" "A" 3000000 manager_A).

(** A treasurer between authorization and settlement: entry ["p1"] is
    pending, its 5 base units are reserved for agent ["A"], and the
    correlation is remembered. *)
Definition treasurer_pending : Treasurer.MasterTreasurer :=
  Treasurer.mkTreasurer
    (snd (Budget.reserve day Ledger.empty "token-1" "A" 5
            (Budget.allocateToAgent "A" 100
               (Budget.mkManager budget_config ∅))))
    ledger_pending
    {[ "p1" := Treasurer.mkContext "A" "read_sensor" ]}.

Definition auth_p1 : Treasurer.Authorization :=
  Treasurer.mkAuthorization "sig-1" "p1".

(** A breaker with the default thresholds and four calls on it: the
    operation fails at the clock readings 100 to 500, then succeeds
    twice once the 30 s cooldown is over. *)
Definition breaker_new : Breaker.CircuitBreaker :=
  Breaker.new "weather" None.

Definition failing (t : Z) : Breaker.Call string string :=
  Breaker.mkCall t (Breaker.Threw "ECONNREFUSED") (t + 10).

Definition succeeding (t : Z) : Breaker.Call string string :=
  Breaker.mkCall t (Breaker.Resolved "ok") (t + 10).

Definition five_failures : list (Breaker.Call string string) :=
  [failing 100; failing 200; failing 300; failing 400; failing 500].

Definition breaker_open : Breaker.CircuitBreaker :=
  Breaker.run five_failures breaker_new.

Definition breaker_half_open : Breaker.CircuitBreaker :=
  Breaker.gate 30510 breaker_open.

(** A registry of four agents.  The primary is healthy but its calls
    throw; ["stale"] is offline; ["other"] is healthy and lacks the
    ["forecast"] tool; ["backup"] is healthy, has it and answers. *)
Definition tool_forecast : Registry.ToolDescriptor :=
  Registry.mkTool "forecast" "weather forecast".
Definition tool_alerts : Registry.ToolDescriptor :=
  Registry.mkTool "alerts" "severe weather alerts".

Definition client_down : Registry.Client string :=
  λ _ _ t,
    Registry.mkResponse
      (Breaker.Threw (Registry.ErrorObject "ECONNREFUSED")) (t + 5).

Definition client_up : Registry.Client string :=
  λ _ _ t,
    Registry.mkResponse
      (Breaker.Resolved
         (Registry.mkCallToolResult false
            [Registry.mkContent "text" "sunny"]))
      (t + 7).

Definition registry : Registry.SubAgentRegistry string :=
  Registry.mkRegistry
    (<["primary" := Registry.mkAgent "primary" "Primary" "http://a"
                      Registry.Healthy [tool_forecast]]>
     (<["stale" := Registry.mkAgent "stale" "Stale" "http://b"
                     Registry.Offline [tool_forecast]]>
      (<["other" := Registry.mkAgent "other" "Other" "http://c"
                      Registry.Healthy [tool_alerts]]>
       (<["backup" := Registry.mkAgent "backup" "Backup" "http://d"
                        Registry.Healthy [tool_forecast]]> ∅))))
    (<["primary" := client_down]>
     (<["stale" := client_down]>
      (<["other" := client_up]>
       (<["backup" := client_up]> ∅)))).

(** No JSON value is modelled in the examples. *)
Definition no_json (text : string) : option string := None.

Definition world0 : @Gateway.World string :=
  Gateway.mkWorld
    (Gateway.mkGateway registry ∅ (Gateway.mkGatewayConfig 30000 None)) 0.

(** A treasurer before any payment: agent ["A"] has 100 base units
    allocated.  Context values are strings: the empty string is the falsy
    one and [String(s)] is [s]. *)
Definition treasurer_idle : Treasurer.MasterTreasurer :=
  Treasurer.mkTreasurer
    (Budget.allocateToAgent "A" 100 (Budget.mkManager budget_config ∅))
    Ledger.empty ∅.

Definition truthy_string (s : string) : bool := negb (String.eqb s "").
Definition string_of_string (s : string) : string := s.

Definition context_A : Treasurer.PaymentContext :=
  Treasurer.mkPaymentContext None None
    (Some (<["agentId" := "A"]> (<["toolName" := "read_sensor"]> ∅))).

Definition wallet_signs (r : Ledger.PaymentRequirements)
    : option Ledger.PaymentPayload := Some "sig-1".
Definition wallet_fails (r : Ledger.PaymentRequirements)
    : option Ledger.PaymentPayload := None.

(** The gateway after five calls to the primary, each of which threw:
    the primary's breaker is open, its last failure recorded at 25 ms. *)
Definition call_primary (w : @Gateway.World string) : @Gateway.World string :=
  snd (Gateway.callTool no_json "primary" "forecast" "{}" w).

Definition world_tripped : @Gateway.World string :=
  call_primary (call_primary (call_primary (call_primary
    (call_primary world0)))).

(** Two sessions: ["s1"] last active at 1000 ms with one message,
    ["s2"] created at 4000000 ms. *)
Definition hello : Session.Message string :=
  Session.mkMessage Session.User "hello" 1000 None.

Definition sessions_two : Session.SessionManager string :=
  snd (Session.getOrCreate 4000000 "s2"
         (Session.addMessage 1000 1000 "s1" hello
            (Session.mkSessionManager []))).

End Scenario.

(* ===================================================================== *)
(** * Part II: properties *)
(* ===================================================================== *)


(** ** Insertion-ordered maps *)
Module JsMapFacts.
Import JsMap.

Section Facts.
Context {V : Type}.
Implicit Types (m : JsMap.t V) (k : string) (v : V).

Lemma get_set_eq k v m : get k (set k v m) = Some v.
Proof.
  induction m as [|[k' v'] m IH]; simpl.
  - by rewrite String.eqb_refl.
  - destruct (String.eqb k k') eqn:E; simpl; rewrite E; auto.
Qed.

Lemma get_set_ne k k' v m : k ≠ k' → get k' (set k v m) = get k' m.
Proof.
  intros Hne. induction m as [|[k0 v0] m IH]; simpl.
  - destruct (String.eqb k' k) eqn:E; [|done].
    apply String.eqb_eq in E. congruence.
  - destruct (String.eqb k k0) eqn:E; simpl.
    + apply String.eqb_eq in E. subst k0.
      destruct (String.eqb k' k) eqn:E'; [|done].
      apply String.eqb_eq in E'. congruence.
    + by rewrite IH.
Qed.

Lemma get_None_not_key k m : get k m = None ↔ k ∉ keys m.
Proof.
  induction m as [|[k' v'] m IH]; simpl.
  - split; [intros _; apply not_elem_of_nil | done].
  - destruct (String.eqb k k') eqn:E.
    + apply String.eqb_eq in E. subst. split; [done|].
      intros H. exfalso. apply H. left.
    + apply String.eqb_neq in E. rewrite IH. unfold keys. simpl.
      rewrite not_elem_of_cons. tauto.
Qed.

(** A fresh key is appended. *)
Lemma set_fresh k v m : get k m = None → set k v m = m ++ [(k, v)].
Proof.
  induction m as [|[k' v'] m IH]; simpl; [done|].
  destruct (String.eqb k k') eqn:E; [done|].
  intros H. by rewrite IH.
Qed.

(** A present key keeps its place, so the key sequence is unchanged. *)
Lemma keys_set_present k v m :
  is_Some (get k m) → keys (set k v m) = keys m.
Proof.
  induction m as [|[k' v'] m IH]; simpl.
  - intros [? ?]; done.
  - destruct (String.eqb k k') eqn:E; simpl; [done|].
    intros H. unfold keys in *. simpl. by rewrite IH.
Qed.

Lemma keys_set k v m :
  keys (set k v m) = match get k m with
                     | Some _ => keys m
                     | None => keys m ++ [k]
                     end.
Proof.
  destruct (get k m) eqn:E.
  - apply keys_set_present. eauto.
  - rewrite set_fresh by done. unfold keys. by rewrite map_app.
Qed.

Lemma NoDup_keys_set k v m : NoDup (keys m) → NoDup (keys (set k v m)).
Proof.
  intros Hnd. rewrite keys_set. destruct (get k m) eqn:E; [done|].
  apply NoDup_app. split; [done|]. split.
  - intros x Hx Hx'. apply list_elem_of_singleton in Hx'. subst x.
    by apply get_None_not_key in E.
  - apply NoDup_singleton.
Qed.

Lemma Forall_set (P : string * V → Prop) k v m :
  P (k, v) → Forall P m → Forall P (set k v m).
Proof.
  intros Hnew. induction 1 as [|[k' v'] m Hx Hm IH]; simpl.
  - constructor; [apply Hnew | constructor].
  - destruct (String.eqb k k') eqn:E; constructor; auto.
    apply String.eqb_eq in E. by subst k'.
Qed.

Lemma get_Some_elem k v m : get k m = Some v → (k, v) ∈ m.
Proof.
  induction m as [|[k' v'] m IH]; simpl; [done|].
  destruct (String.eqb k k') eqn:E.
  - apply String.eqb_eq in E. intros [= ->]. subst. left.
  - intros H. right. auto.
Qed.

(** Filing the values of a map again, each under its key, rebuilds
    the map. *)
Lemma refill_app (key : V → string) (m1 m2 : JsMap.t V) :
  NoDup (keys (m1 ++ m2)) →
  Forall (λ kv, key (snd kv) = fst kv) m2 →
  fold_left (λ m x, set (key x) x m) (values m2) m1 = m1 ++ m2.
Proof.
  revert m1. induction m2 as [|[k v] m2 IH]; intros m1 Hnd Hkey; simpl.
  - by rewrite app_nil_r.
  - inversion Hkey as [|? ? Hk Hrest]; subst. simpl in Hk. rewrite Hk.
    assert (Hfresh : get k m1 = None).
    { apply get_None_not_key. unfold keys in *.
      rewrite map_app in Hnd. simpl in Hnd.
      apply NoDup_app in Hnd as (_ & Hdis & _).
      intros Hin. apply (Hdis k Hin). left. }
    rewrite set_fresh by done.
    rewrite IH; [by rewrite <- app_assoc | | done].
    by rewrite <- app_assoc.
Qed.

Lemma refill (key : V → string) m :
  NoDup (keys m) →
  Forall (λ kv, key (snd kv) = fst kv) m →
  fold_left (λ m' x, set (key x) x m') (values m) [] = m.
Proof. intros. by rewrite refill_app. Qed.

End Facts.
End JsMapFacts.

(** ** The payment ledger *)
Module LedgerFacts.
Import Ledger.

Lemma Status_eqb_eq a b : Status_eqb a b = true ↔ a = b.
Proof. destruct a, b; simpl; split; congruence. Qed.

(** *** The shape of the entry map is kept by every operation *)

Lemma wf_empty : ledger_wf empty.
Proof. split; simpl; constructor. Qed.

Lemma wf_recordAuthorization now id agentId toolName requirements payment L :
  ledger_wf L →
  ledger_wf (recordAuthorization now id agentId toolName requirements
               payment L).
Proof.
  intros [Hnd Hid]. split; simpl.
  - by apply JsMapFacts.NoDup_keys_set.
  - by apply JsMapFacts.Forall_set.
Qed.

Lemma e_id_set_error error entry : e_id (set_error error entry) = e_id entry.
Proof.
  destruct error as [msg|]; simpl; [|done]. by destruct (String.eqb msg "").
Qed.

Lemma e_amount_set_error error entry :
  e_amount (set_error error entry) = e_amount entry.
Proof.
  destruct error as [msg|]; simpl; [|done]. by destruct (String.eqb msg "").
Qed.

Lemma e_status_set_error error entry :
  e_status (set_error error entry) = e_status entry.
Proof.
  destruct error as [msg|]; simpl; [|done]. by destruct (String.eqb msg "").
Qed.

Lemma entries_addToDailySpending today amount L :
  entries (addToDailySpending today amount L) = entries L.
Proof. unfold addToDailySpending. by destruct (String.eqb today ""). Qed.

Lemma wf_addToDailySpending today amount L :
  ledger_wf L → ledger_wf (addToDailySpending today amount L).
Proof. unfold ledger_wf. by rewrite entries_addToDailySpending. Qed.

Lemma wf_updateStatus today id status error L :
  ledger_wf L → ledger_wf (updateStatus today id status error L).
Proof.
  intros [Hnd Hid]. unfold updateStatus.
  destruct (JsMap.get id (entries L)) as [entry|] eqn:Hget; [|done].
  assert (Hwf1 : ledger_wf
            (mkLedger
               (JsMap.set id (set_error error (set_status status entry))
                  (entries L))
               (dailySpending L))).
  { split; simpl.
    - by apply JsMapFacts.NoDup_keys_set.
    - apply JsMapFacts.Forall_set; [|done]. simpl.
      rewrite e_id_set_error. simpl.
      apply JsMapFacts.get_Some_elem in Hget.
      rewrite Forall_forall in Hid. apply (Hid _ Hget). }
  destruct (Status_eqb status Accepted); [|done].
  by apply wf_addToDailySpending.
Qed.

Lemma wf_refill (es : list PaymentEntry) (m : JsMap.t PaymentEntry) :
  NoDup (JsMap.keys m) → Forall (λ kv, e_id (snd kv) = fst kv) m →
  NoDup (JsMap.keys (fold_left (λ m e, JsMap.set (e_id e) e m) es m))
  ∧ Forall (λ kv, e_id (snd kv) = fst kv)
      (fold_left (λ m e, JsMap.set (e_id e) e m) es m).
Proof.
  revert m. induction es as [|e es IH]; intros m Hnd Hid; simpl; [done|].
  apply IH.
  - by apply JsMapFacts.NoDup_keys_set.
  - by apply JsMapFacts.Forall_set.
Qed.

Lemma wf_importFromJson data L : ledger_wf (importFromJson data L).
Proof. unfold ledger_wf, importFromJson. simpl. apply wf_refill; constructor. Qed.

Lemma reachable_wf L : reachable L → ledger_wf L.
Proof.
  induction 1.
  - apply wf_empty.
  - by apply wf_recordAuthorization.
  - by apply wf_updateStatus.
  - apply wf_importFromJson.
Qed.

(** *** Reading entries after a write *)

Lemma getEntry_recordAuthorization_other
    now id agentId toolName requirements payment L id' :
  id' ≠ id →
  getEntry id' (recordAuthorization now id agentId toolName requirements
                  payment L)
  = getEntry id' L.
Proof. intros Hne. unfold getEntry. simpl. by apply JsMapFacts.get_set_ne. Qed.

Lemma updateStatus_missing today id status error L :
  getEntry id L = None → updateStatus today id status error L = L.
Proof. unfold getEntry, updateStatus. by intros ->. Qed.

Lemma getEntry_addToDailySpending today amount L id :
  getEntry id (addToDailySpending today amount L) = getEntry id L.
Proof. unfold getEntry. by rewrite entries_addToDailySpending. Qed.

Lemma getTodaySpending_addToDailySpending today amount L :
  today ≠ "" →
  getTodaySpending today (addToDailySpending today amount L)
  = getTodaySpending today L + amount.
Proof.
  intros Hne. unfold addToDailySpending, getTodaySpending.
  destruct (String.eqb today "") eqn:E.
  - apply String.eqb_eq in E. done.
  - simpl. by rewrite lookup_insert_eq.
Qed.

Lemma getTodaySpending_addToDailySpending_other today amount L d :
  d ≠ today →
  getTodaySpending d (addToDailySpending today amount L)
  = getTodaySpending d L.
Proof.
  intros Hne. unfold addToDailySpending, getTodaySpending.
  destruct (String.eqb today ""); [done|].
  simpl. by rewrite lookup_insert_ne.
Qed.

(** An update neither files nor removes an entry, and keeps amounts. *)
Lemma getEntry_updateStatus today id status error L :
  getEntry id (updateStatus today id status error L)
  = (λ entry, set_error error (set_status status entry)) <$> getEntry id L.
Proof.
  unfold updateStatus, getEntry at 2.
  destruct (JsMap.get id (entries L)) as [entry|] eqn:Hget; simpl.
  - destruct (Status_eqb status Accepted);
      rewrite ?getEntry_addToDailySpending; unfold getEntry; simpl;
      apply JsMapFacts.get_set_eq.
  - unfold getEntry. by rewrite Hget.
Qed.

(** *** C1 *)

(** C1, as stated, fails.  Entry ["p1"] (5 base units) of
    [Scenario.ledger_accepted] already has the terminal status
    accepted and the day's bucket holds 5.  A second
    [updateStatus("p1", "accepted")] credits the bucket again (10), and
    [updateStatus("p1", "rejected", "late")] changes the status and
    the error text of the terminal entry. *)
Lemma updateStatus_terminal_entry_changes :
  e_status <$> getEntry "p1" Scenario.ledger_accepted = Some Accepted
  ∧ getTodaySpending Scenario.day Scenario.ledger_accepted = 5
  ∧ getTodaySpending Scenario.day
      (updateStatus Scenario.day "p1" Accepted None
         Scenario.ledger_accepted) = 10
  ∧ e_status <$> getEntry "p1"
      (updateStatus Scenario.day "p1" Rejected (Some "late")
         Scenario.ledger_accepted) = Some Rejected
  ∧ e_error <$> getEntry "p1" Scenario.ledger_accepted = Some None
  ∧ e_error <$> getEntry "p1"
      (updateStatus Scenario.day "p1" Rejected (Some "late")
         Scenario.ledger_accepted) = Some (Some "late").
Proof. vm_compute. repeat split; reflexivity. Qed.

(** C1, amended: [updateStatus(id, status, error?)] takes effect on
    every existing entry, whatever its current status.  The entry's
    status becomes [status]; its error text becomes [error] when that
    is a non-empty string and is kept otherwise; every other field and
    every other entry is unchanged.  When [status] is accepted the
    entry's amount is added to the current day's bucket (again, if the
    entry was accepted before) and no other day changes; otherwise the
    daily map is unchanged. *)
Theorem updateStatus_overwrites today id status error L entry :
  getEntry id L = Some entry →
  today ≠ "" →
  let L' := updateStatus today id status error L in
  getEntry id L' = Some (set_error error (set_status status entry))
  ∧ e_status (set_error error (set_status status entry)) = status
  ∧ e_error (set_error error (set_status status entry))
    = match error with
      | Some msg => if String.eqb msg "" then e_error entry else Some msg
      | None => e_error entry
      end
  ∧ (∀ id', id' ≠ id → getEntry id' L' = getEntry id' L)
  ∧ (status = Accepted →
     getTodaySpending today L' = getTodaySpending today L + e_amount entry
     ∧ ∀ d, d ≠ today → getTodaySpending d L' = getTodaySpending d L)
  ∧ (status ≠ Accepted → dailySpending L' = dailySpending L).
Proof.
  intros Hget Htoday L'. subst L'. unfold updateStatus.
  unfold getEntry in Hget. rewrite Hget.
  set (entry' := set_error error (set_status status entry)).
  set (L1 := mkLedger (JsMap.set id entry' (entries L)) (dailySpending L)).
  assert (Hamount : e_amount entry' = e_amount entry)
    by (subst entry'; by rewrite e_amount_set_error).
  assert (H1 : getEntry id L1 = Some entry')
    by (unfold getEntry; simpl; apply JsMapFacts.get_set_eq).
  assert (H1' : ∀ id', id' ≠ id → getEntry id' L1 = getEntry id' L).
  { intros id' Hne. unfold getEntry. simpl.
    by apply JsMapFacts.get_set_ne. }
  split_and!.
  - destruct (Status_eqb status Accepted);
      [by rewrite getEntry_addToDailySpending | done].
  - subst entry'. by rewrite e_status_set_error.
  - subst entry'. destruct error as [msg|]; simpl; [|done].
    by destruct (String.eqb msg "").
  - intros id' Hne.
    destruct (Status_eqb status Accepted);
      [rewrite getEntry_addToDailySpending|]; by apply H1'.
  - intros ->. simpl. rewrite Hamount. split.
    + by rewrite getTodaySpending_addToDailySpending.
    + intros d Hd. by rewrite getTodaySpending_addToDailySpending_other.
  - intros Hne. destruct (Status_eqb status Accepted) eqn:E; [|done].
    by apply Status_eqb_eq in E.
Qed.

Lemma updateStatus_overwrites_witness :
  getEntry "p1"
    (updateStatus Scenario.day "p1" Accepted None Scenario.ledger_accepted)
  = Some (set_error None
            (set_status Accepted
               (mkEntry "p1" 1000 "A" "read_sensor" 5 Accepted
                  (Some Scenario.req5) (Some "sig-1") None)))
  ∧ getTodaySpending Scenario.day
      (updateStatus Scenario.day "p1" Accepted None
         Scenario.ledger_accepted)
    = getTodaySpending Scenario.day Scenario.ledger_accepted + 5.
Proof.
  pose proof (updateStatus_overwrites Scenario.day "p1" Accepted None
                Scenario.ledger_accepted
                (mkEntry "p1" 1000 "A" "read_sensor" 5 Accepted
                   (Some Scenario.req5) (Some "sig-1") None)
                eq_refl ltac:(discriminate)) as H.
  simpl in H. destruct H as (H1 & _ & _ & _ & H2 & _).
  split; [exact H1 | exact (proj1 (H2 eq_refl))].
Defined.

(** *** C8 *)

(** C8, as stated, fails.  [Scenario.ledger_accepted] holds the
    accepted entry ["p1"] of agent A (5 base units).  Recording a new
    authorization under the same id does not fail: it puts a pending
    entry of agent B (7 base units) in the place of the accepted one,
    and the total spent falls from 5 to 0. *)
Lemma recordAuthorization_existing_id_replaces :
  let L := Scenario.ledger_accepted in
  let L' := recordAuthorization 3000 "p1" "B" "forecast" Scenario.req7
              "sig-9" L in
  getEntry "p1" L
  = Some (mkEntry "p1" 1000 "A" "read_sensor" 5 Accepted
            (Some Scenario.req5) (Some "sig-1") None)
  ∧ getEntry "p1" L'
    = Some (mkEntry "p1" 3000 "B" "forecast" 7 Pending
              (Some Scenario.req7) (Some "sig-9") None)
  ∧ length (entries L') = length (entries L)
  ∧ getTotalSpent L = 5
  ∧ getTotalSpent L' = 0.
Proof. vm_compute. repeat split; reflexivity. Qed.

(** C8, amended: [recordAuthorization] never fails.  It files a
    pending entry with the given fields under [id], leaves every entry
    filed under another id and the daily map unchanged, and, when no
    entry had this id, appends the new entry after the existing ones,
    all of which are kept. *)
Theorem recordAuthorization_spec
    now id agentId toolName requirements payment L :
  let L' := recordAuthorization now id agentId toolName requirements
              payment L in
  let entry := mkEntry id now agentId toolName
                 (maxAmountRequired requirements) Pending
                 (Some requirements) (Some payment) None in
  getEntry id L' = Some entry
  ∧ dailySpending L' = dailySpending L
  ∧ (∀ id', id' ≠ id → getEntry id' L' = getEntry id' L)
  ∧ (getEntry id L = None → entries L' = entries L ++ [(id, entry)]).
Proof.
  intros L' entry. subst L'. split_and!.
  - unfold getEntry. simpl. apply JsMapFacts.get_set_eq.
  - done.
  - intros id' Hne. by apply getEntry_recordAuthorization_other.
  - intros Hnone. simpl. by apply JsMapFacts.set_fresh.
Qed.

Lemma recordAuthorization_spec_witness :
  getEntry "p1"
    (recordAuthorization 2000 "p2" "B" "forecast" Scenario.req7 "sig-2"
       Scenario.ledger_accepted)
  = getEntry "p1" Scenario.ledger_accepted
  ∧ entries (recordAuthorization 2000 "p2" "B" "forecast" Scenario.req7
               "sig-2" Scenario.ledger_accepted)
    = entries Scenario.ledger_accepted
      ++ [("p2", mkEntry "p2" 2000 "B" "forecast" 7 Pending
                   (Some Scenario.req7) (Some "sig-2") None)].
Proof.
  pose proof (recordAuthorization_spec 2000 "p2" "B" "forecast"
                Scenario.req7 "sig-2" Scenario.ledger_accepted) as H.
  destruct H as (_ & _ & Hother & Hfresh).
  split.
  - apply Hother. discriminate.
  - apply Hfresh. reflexivity.
Defined.

(** *** C6 *)

Lemma importFromJson_exportToJson L L0 :
  ledger_wf L → importFromJson (exportToJson L) L0 = L.
Proof.
  intros [Hnd Hid]. unfold importFromJson, exportToJson. simpl.
  rewrite JsMapFacts.refill by done. by destruct L.
Qed.

(** C6: for every ledger the operations can produce, importing its
    export, into any ledger whatever, gives back that ledger: the
    entries and the daily map are exactly the exported ones, nothing of
    the importing ledger's previous content remains, and so
    [getTotalSpent], [getSpentByAgent] for every agent and
    [getTodaySpending] for every day are the same. *)
Theorem import_export_roundtrip L L0 :
  reachable L →
  let L' := importFromJson (exportToJson L) L0 in
  L' = L
  ∧ getTotalSpent L' = getTotalSpent L
  ∧ (∀ agentId, getSpentByAgent agentId L' = getSpentByAgent agentId L)
  ∧ (∀ today, getTodaySpending today L' = getTodaySpending today L).
Proof.
  intros Hreach L'. subst L'.
  rewrite importFromJson_exportToJson by by apply reachable_wf.
  done.
Qed.

Lemma import_export_roundtrip_witness :
  reachable Scenario.ledger_two
  ∧ importFromJson (exportToJson Scenario.ledger_two)
      Scenario.ledger_pending
    = Scenario.ledger_two.
Proof.
  assert (Hreach : reachable Scenario.ledger_two).
  { unfold Scenario.ledger_two, Scenario.ledger_accepted,
      Scenario.ledger_pending.
    apply reach_update, reach_record, reach_update, reach_record,
      reach_empty. }
  split; [exact Hreach|].
  exact (proj1 (import_export_roundtrip Scenario.ledger_two
                  Scenario.ledger_pending Hreach)).
Defined.

End LedgerFacts.

(** ** The budget manager *)
Module BudgetFacts.
Import Budget.

(** *** C2 *)

(** C2: [canApprove] applies four checks in a fixed order and stops at
    the first that fails, with that check's reason: the per-request
    limit, then the daily limit, then the total budget, then, only
    when the agent has an allocation, the agent's available amount
    (allocated minus spent minus reserved); it allows when every
    applicable check passes. *)
Theorem canApprove_checks_in_order today ledger B agentId amount :
  let cfg := config B in
  let todaySpending := Ledger.getTodaySpending today ledger in
  let totalSpent := Ledger.getTotalSpent ledger in
  let agentSpent := Ledger.getSpentByAgent agentId ledger in
  let result := canApprove today ledger B agentId amount in
  (amount > perRequestLimit cfg →
   result = deny (ExceedsPerRequestLimit (perRequestLimit cfg)))
  ∧ (amount ≤ perRequestLimit cfg →
     todaySpending + amount > dailyLimit cfg →
     result = deny (WouldExceedDailyLimit (dailyLimit cfg)))
  ∧ (amount ≤ perRequestLimit cfg →
     todaySpending + amount ≤ dailyLimit cfg →
     totalSpent + amount > totalBudget cfg →
     result = deny (WouldExceedTotalBudget (totalBudget cfg)))
  ∧ (amount ≤ perRequestLimit cfg →
     todaySpending + amount ≤ dailyLimit cfg →
     totalSpent + amount ≤ totalBudget cfg →
     match agentAllocations B !! agentId with
     | Some allocation =>
         (amount ≤ allocated allocation - agentSpent - reserved allocation
          → result = allow)
         ∧ (allocated allocation - agentSpent - reserved allocation < amount
            → result
              = deny (WouldExceedAgentAllocation (allocated allocation)))
     | None => result = allow
     end).
Proof.
  intros cfg todaySpending totalSpent agentSpent result.
  subst result cfg todaySpending totalSpent agentSpent.
  unfold canApprove.
  split_and!.
  - intros H. destruct (Z.gtb_spec amount (perRequestLimit (config B)));
      [done | lia].
  - intros H1 H2.
    destruct (Z.gtb_spec amount (perRequestLimit (config B))); [lia|].
    destruct (Z.gtb_spec (Ledger.getTodaySpending today ledger + amount)
                (dailyLimit (config B))); [done | lia].
  - intros H1 H2 H3.
    destruct (Z.gtb_spec amount (perRequestLimit (config B))); [lia|].
    destruct (Z.gtb_spec (Ledger.getTodaySpending today ledger + amount)
                (dailyLimit (config B))); [lia|].
    destruct (Z.gtb_spec (Ledger.getTotalSpent ledger + amount)
                (totalBudget (config B))); [done | lia].
  - intros H1 H2 H3.
    destruct (Z.gtb_spec amount (perRequestLimit (config B))); [lia|].
    destruct (Z.gtb_spec (Ledger.getTodaySpending today ledger + amount)
                (dailyLimit (config B))); [lia|].
    destruct (Z.gtb_spec (Ledger.getTotalSpent ledger + amount)
                (totalBudget (config B))); [lia|].
    destruct (agentAllocations B !! agentId) as [allocation|]; [|done].
    destruct (Z.gtb_spec amount
                (allocated allocation
                 - Ledger.getSpentByAgent agentId ledger
                 - reserved allocation)); split; intros; (done || lia).
Qed.

(** The specification's scenario: with 3.00 of agent A's 5.00 already
    reserved, a request for another 3.00 passes the three global checks
    and is denied on the allocation. *)
Lemma canApprove_checks_in_order_witness :
  canApprove Scenario.day Ledger.empty Scenario.manager_A_reserved "A"
    3000000
  = deny (WouldExceedAgentAllocation 5000000).
Proof.
  pose proof (canApprove_checks_in_order Scenario.day Ledger.empty
                Scenario.manager_A_reserved "A" 3000000) as H.
  destruct H as (_ & _ & _ & H).
  assert (Hlookup :
    agentAllocations Scenario.manager_A_reserved !! "A"
    = Some (mkAllocation "A" 5000000 3000000)) by (vm_compute; reflexivity).
  rewrite Hlookup in H. simpl in H.
  apply H; vm_compute; congruence.
Defined.

(** *** C3 *)

Lemma reserved_nonneg_allocateToAgent agentId amount B :
  reserved_nonneg B → reserved_nonneg (allocateToAgent agentId amount B).
Proof.
  intros HB id a. unfold allocateToAgent. simpl.
  rewrite lookup_insert. case_decide.
  - intros [= <-]. simpl. lia.
  - apply HB.
Qed.

(** A release leaves a counter that is not negative, whatever the
    manager and the amount. *)
Lemma releaseReservation_reserved agentId amount B :
  reservedOf agentId (releaseReservation agentId amount B)
  = (λ a, Z.max 0 (reserved a - amount)) <$> agentAllocations B !! agentId.
Proof.
  unfold reservedOf, releaseReservation.
  destruct (agentAllocations B !! agentId) as [a|] eqn:E; simpl.
  - rewrite lookup_insert_eq. simpl. f_equal.
    destruct (Z.gtb_spec (reserved a) amount); lia.
  - by rewrite E.
Qed.

Lemma reserved_nonneg_releaseReservation agentId amount B :
  reserved_nonneg B → reserved_nonneg (releaseReservation agentId amount B).
Proof.
  intros HB id a. unfold releaseReservation.
  destruct (agentAllocations B !! agentId) as [a0|] eqn:E; [|apply HB].
  simpl. rewrite lookup_insert. case_decide.
  - intros [= <-]. simpl.
    destruct (Z.gtb_spec (reserved a0) amount); lia.
  - apply HB.
Qed.

Lemma reserved_nonneg_reserve today ledger uuid agentId amount B :
  0 ≤ amount →
  reserved_nonneg B →
  reserved_nonneg (snd (reserve today ledger uuid agentId amount B)).
Proof.
  intros Hamount HB. unfold reserve.
  destruct (agentAllocations B !! agentId) as [a0|] eqn:E.
  - destruct (allowed (canApprove today ledger B agentId amount));
      simpl; [|done].
    intros id a. simpl. rewrite lookup_insert. case_decide.
    + intros [= <-]. simpl. specialize (HB _ _ E). lia.
    + apply HB.
  - by destruct (allowed (canApprove today ledger B agentId amount)).
Qed.

Lemma reserved_nonneg_step B op :
  reserve_amount_nonneg op → reserved_nonneg B → reserved_nonneg (step B op).
Proof.
  destruct op; simpl; intros Hop HB.
  - by apply reserved_nonneg_allocateToAgent.
  - by apply reserved_nonneg_reserve.
  - by apply reserved_nonneg_releaseReservation.
Qed.

(** C3, as stated, fails: the sign of a reserved amount is not checked.
    Agent A has 5.00 allocated and nothing reserved; [reserve("A", "-5")]
    passes every check of [canApprove], returns a token and leaves the
    reserved counter at -5. *)
Lemma reserve_negative_amount_drives_reserved_negative :
  reservedOf "A" Scenario.manager_A = Some 0
  ∧ canApprove Scenario.day Ledger.empty Scenario.manager_A "A" (-5) = allow
  ∧ fst (reserve Scenario.day Ledger.empty "token-2" "A" (-5)
           Scenario.manager_A) = Some "token-2"
  ∧ reservedOf "A"
      (run [Reserve Scenario.day Ledger.empty "token-2" "A" (-5)]
         Scenario.manager_A) = Some (-5).
Proof. vm_compute. repeat split; reflexivity. Qed.

(** C3, amended: starting from a manager whose reserved counters are
    not negative (a new manager has none), after every sequence of
    [allocateToAgent], [reserve] and [releaseReservation] calls in which
    each reserved amount is at least zero, every reserved counter is at
    least zero.  [releaseReservation(agentId, amount)] sets the
    counter to the larger of [reserved - amount] and zero, for any
    amount, reserved before or not, so a release, also a repeated one,
    never leaves it negative. *)
Theorem reserved_never_negative ops B :
  reserved_nonneg B →
  Forall reserve_amount_nonneg ops →
  reserved_nonneg (run ops B)
  ∧ ∀ agentId amount,
      reservedOf agentId (releaseReservation agentId amount (run ops B))
      = (λ a, Z.max 0 (reserved a - amount))
          <$> agentAllocations (run ops B) !! agentId
      ∧ reserved_nonneg
          (releaseReservation agentId amount
             (releaseReservation agentId amount (run ops B))).
Proof.
  intros HB Hops.
  assert (Hrun : reserved_nonneg (run ops B)).
  { revert B HB. induction Hops as [|op ops Hop Hops IH]; intros B HB;
      simpl; [done|].
    apply IH. by apply reserved_nonneg_step. }
  split; [done|]. intros agentId amount. split.
  - apply releaseReservation_reserved.
  - by do 2 apply reserved_nonneg_releaseReservation.
Qed.

(** Reserve 3.00 for agent A, then release it twice: the counter is 0. *)
Lemma reserved_never_negative_witness :
  reservedOf "A"
    (releaseReservation "A" 3000000
       (run [Reserve Scenario.day Ledger.empty "token-1" "A" 3000000;
             Release "A" 3000000]
          Scenario.manager_A))
  = Some 0.
Proof.
  assert (H0 : reserved_nonneg Scenario.manager_A).
  { apply reserved_nonneg_allocateToAgent. intros id a. simpl.
    by rewrite lookup_empty. }
  assert (Hops : Forall reserve_amount_nonneg
            [Reserve Scenario.day Ledger.empty "token-1" "A" 3000000;
             Release "A" 3000000]).
  { repeat constructor. simpl. lia. }
  destruct (reserved_never_negative _ _ H0 Hops) as [_ H].
  destruct (H "A" 3000000) as [Heq _].
  rewrite Heq. vm_compute. reflexivity.
Defined.

(** *** C9 *)

(** C9: [allocateToAgent(agentId, amount)] installs the allocation
    [{agentId, allocated: amount, reserved: 0}], whatever was there
    before: a reserved counter of an earlier allocation of the agent is
    discarded.  Other agents' allocations and the configuration are
    not touched. *)
Theorem allocateToAgent_resets_reserved agentId amount B :
  let B' := allocateToAgent agentId amount B in
  agentAllocations B' !! agentId = Some (mkAllocation agentId amount 0)
  ∧ reservedOf agentId B' = Some 0
  ∧ config B' = config B
  ∧ ∀ other, other ≠ agentId →
      agentAllocations B' !! other = agentAllocations B !! other.
Proof.
  intros B'. subst B'. unfold reservedOf, allocateToAgent. simpl.
  split_and!.
  - by rewrite lookup_insert_eq.
  - by rewrite lookup_insert_eq.
  - done.
  - intros other Hne. by rewrite lookup_insert_ne.
Qed.

(** Agent A holds a reservation of 3.00; allocating to A again leaves
    no reservation. *)
Lemma allocateToAgent_resets_reserved_witness :
  reservedOf "A" Scenario.manager_A_reserved = Some 3000000
  ∧ reservedOf "A" (allocateToAgent "A" 5000000 Scenario.manager_A_reserved)
    = Some 0
  ∧ agentAllocations
      (allocateToAgent "A" 5000000 Scenario.manager_A_reserved) !! "B"
    = agentAllocations Scenario.manager_A_reserved !! "B".
Proof.
  destruct (allocateToAgent_resets_reserved "A" 5000000
              Scenario.manager_A_reserved) as (_ & H & _ & Hother).
  split; [vm_compute; reflexivity|]. split; [exact H|].
  apply Hother. discriminate.
Defined.

(** *** C10 *)

(** C10: for an agent without allocation, [reserve] returns the token
    exactly when the three global checks pass (per-request limit,
    daily limit, total budget) and never changes the manager, and
    [releaseReservation] changes nothing; no reserved counter exists
    for the agent before or after. *)
Theorem no_allocation_no_hold today ledger uuid agentId amount B :
  agentAllocations B !! agentId = None →
  snd (reserve today ledger uuid agentId amount B) = B
  ∧ (amount ≤ perRequestLimit (config B)
     ∧ Ledger.getTodaySpending today ledger + amount ≤ dailyLimit (config B)
     ∧ Ledger.getTotalSpent ledger + amount ≤ totalBudget (config B)
     → fst (reserve today ledger uuid agentId amount B) = Some uuid)
  ∧ (fst (reserve today ledger uuid agentId amount B) = Some uuid
     ∨ fst (reserve today ledger uuid agentId amount B) = None)
  ∧ (fst (reserve today ledger uuid agentId amount B) = Some uuid →
     amount ≤ perRequestLimit (config B)
     ∧ Ledger.getTodaySpending today ledger + amount ≤ dailyLimit (config B)
     ∧ Ledger.getTotalSpent ledger + amount ≤ totalBudget (config B))
  ∧ releaseReservation agentId amount B = B
  ∧ reservedOf agentId (snd (reserve today ledger uuid agentId amount B))
    = None
  ∧ reservedOf agentId (releaseReservation agentId amount B) = None.
Proof.
  intros Hnone. unfold reserve, releaseReservation, reservedOf.
  rewrite Hnone. unfold canApprove. rewrite Hnone.
  destruct (Z.gtb_spec amount (perRequestLimit (config B)));
  destruct (Z.gtb_spec (Ledger.getTodaySpending today ledger + amount)
              (dailyLimit (config B)));
  destruct (Z.gtb_spec (Ledger.getTotalSpent ledger + amount)
              (totalBudget (config B)));
    simpl; rewrite ?Hnone; simpl;
    (split_and!; try done; try (intros; lia); try (by left);
     try (by right)).
Qed.

(** Agent ["C"] has no allocation in the scenario: a reservation of
    3.00 returns the token and leaves no trace. *)
Lemma no_allocation_no_hold_witness :
  reserve Scenario.day Ledger.empty "token-3" "C" 3000000
    Scenario.manager_A_reserved
  = (Some "token-3", Scenario.manager_A_reserved)
  ∧ releaseReservation "C" 3000000 Scenario.manager_A_reserved
    = Scenario.manager_A_reserved.
Proof.
  assert (Hnone : agentAllocations Scenario.manager_A_reserved !! "C" = None)
    by (vm_compute; reflexivity).
  destruct (no_allocation_no_hold Scenario.day Ledger.empty "token-3" "C"
              3000000 Scenario.manager_A_reserved Hnone)
    as (Hsnd & Hfst & _ & _ & Hrel & _).
  split; [|exact Hrel].
  rewrite (surjective_pairing (reserve _ _ _ _ _ _)).
  rewrite Hsnd. rewrite Hfst; [reflexivity|].
  vm_compute. repeat split; congruence.
Defined.

End BudgetFacts.

(** ** The master treasurer *)
Module TreasurerFacts.
Import Treasurer.

Lemma isTerminalStatus_true status :
  isTerminalStatus status = true ↔ status ∈ terminal_vocabulary.
Proof.
  unfold isTerminalStatus, terminal_vocabulary. simpl.
  rewrite !elem_of_cons, elem_of_nil, !orb_true_iff, !String.eqb_eq.
  intuition discriminate.
Qed.

Lemma isTerminalStatus_false status :
  isTerminalStatus status = false ↔ status ∉ terminal_vocabulary.
Proof.
  rewrite <- isTerminalStatus_true.
  destruct (isTerminalStatus status); split; congruence.
Qed.

Lemma ledgerStatusOf_other status :
  status ∉ terminal_vocabulary → ledgerStatusOf status = Ledger.Pending.
Proof.
  unfold terminal_vocabulary, ledgerStatusOf.
  rewrite !not_elem_of_cons. intros (H1 & H2 & H3 & H4 & _).
  apply String.eqb_neq in H1, H2, H3, H4. by rewrite H1, H2, H3, H4.
Qed.

(** C5, as stated, fails on a status outside the vocabulary.  In
    [Scenario.treasurer_pending] entry ["p1"] is pending with 5 base
    units reserved for agent A.  The status ["unknown"] maps to
    pending and is not terminal, the correlation stays, and yet the
    reservation is released (5 becomes 0). *)
Lemma onStatus_unknown_status_releases :
  let T := Scenario.treasurer_pending in
  let T' := onStatus Scenario.day "unknown" Scenario.auth_p1 T in
  ledgerStatusOf "unknown" = Ledger.Pending
  ∧ isTerminalStatus "unknown" = false
  ∧ Ledger.e_status <$> Ledger.getEntry "p1" (ledger T')
    = Some Ledger.Pending
  ∧ pendingContexts T' !! "p1" = Some (mkContext "A" "read_sensor")
  ∧ Budget.reservedOf "A" (budgetManager T) = Some 5
  ∧ Budget.reservedOf "A" (budgetManager T') = Some 0.
Proof. vm_compute. repeat split; reflexivity. Qed.

(** C5, amended: [onStatus] maps accepted to accepted, rejected and
    declined to rejected, error to error, and sending and every other
    value to pending, and updates the ledger entry of the
    authorization with the mapped status (no error text).  The
    reservation is released exactly when the status is neither
    accepted nor sending and both the correlation entry and the ledger
    entry of the authorization exist, by the entry's amount for the
    correlated agent: so for rejected, declined and error, and also
    for a status outside the vocabulary.  The correlation entry is
    dropped exactly on accepted, rejected, declined and error. *)
Theorem onStatus_spec today status authorization T :
  let id := authorizationId authorization in
  let T' := onStatus today status authorization T in
  (ledgerStatusOf "accepted" = Ledger.Accepted
   ∧ ledgerStatusOf "rejected" = Ledger.Rejected
   ∧ ledgerStatusOf "declined" = Ledger.Rejected
   ∧ ledgerStatusOf "error" = Ledger.Error
   ∧ ledgerStatusOf "sending" = Ledger.Pending
   ∧ (status ∉ terminal_vocabulary →
      ledgerStatusOf status = Ledger.Pending))
  ∧ ledger T'
    = Ledger.updateStatus today id (ledgerStatusOf status) None (ledger T)
  ∧ (status = "accepted" ∨ status = "sending" →
     budgetManager T' = budgetManager T)
  ∧ (status ≠ "accepted" → status ≠ "sending" →
     budgetManager T'
     = match pendingContexts T !! id, Ledger.getEntry id (ledger T) with
       | Some ctx, Some entry =>
           Budget.releaseReservation (c_agentId ctx)
             (Ledger.e_amount entry) (budgetManager T)
       | _, _ => budgetManager T
       end)
  ∧ (status ∈ terminal_vocabulary →
     pendingContexts T' = delete id (pendingContexts T))
  ∧ (status ∉ terminal_vocabulary →
     pendingContexts T' = pendingContexts T).
Proof.
  intros id T'. subst id T'. unfold onStatus. simpl.
  split_and!; try reflexivity.
  - apply ledgerStatusOf_other.
  - intros [-> | ->]; reflexivity.
  - intros H1 H2. apply String.eqb_neq in H1, H2. rewrite H1, H2. simpl.
    destruct (pendingContexts T !! authorizationId authorization)
      as [ctx|]; [|done].
    rewrite LedgerFacts.getEntry_updateStatus.
    destruct (Ledger.getEntry (authorizationId authorization) (ledger T))
      as [entry|]; simpl; done.
  - intros H. apply isTerminalStatus_true in H. by rewrite H.
  - intros H. apply isTerminalStatus_false in H. by rewrite H.
Qed.

(** A rejection of the pending payment ["p1"]: the entry becomes
    rejected, the 5 reserved base units are released and the
    correlation is dropped. *)
Lemma onStatus_spec_witness :
  let T' := onStatus Scenario.day "rejected" Scenario.auth_p1
              Scenario.treasurer_pending in
  budgetManager T'
  = Budget.releaseReservation "A" 5
      (budgetManager Scenario.treasurer_pending)
  ∧ pendingContexts T' = delete "p1" (pendingContexts Scenario.treasurer_pending).
Proof.
  destruct (onStatus_spec Scenario.day "rejected" Scenario.auth_p1
              Scenario.treasurer_pending) as (_ & _ & _ & Hrel & Hdrop & _).
  split.
  - rewrite Hrel by discriminate. reflexivity.
  - apply Hdrop. unfold terminal_vocabulary.
    rewrite !elem_of_cons. right. left. reflexivity.
Defined.

End TreasurerFacts.

(** ** The circuit breaker *)
Module BreakerFacts.
Import Breaker.

Section Facts.
Context {T E : Type}.
Implicit Types (cb : CircuitBreaker) (c : Call T E).

Lemma gate_not_open now cb : state cb ≠ Open → gate now cb = cb.
Proof. unfold gate. by destruct (state cb). Qed.

Lemma gate_cooled_down now t cb :
  state cb = Open → lastFailure cb = Some t →
  timeout (config cb) ≤ now - t →
  gate now cb = set_state HalfOpen cb.
Proof.
  intros Hopen Hlast Hcool. unfold gate, shouldAttemptReset.
  rewrite Hopen, Hlast. simpl.
  by destruct (Z.geb_spec (now - t) (timeout (config cb))); [|lia].
Qed.

Lemma gate_cooling now t cb :
  state cb = Open → lastFailure cb = Some t →
  now - t < timeout (config cb) →
  gate now cb = cb.
Proof.
  intros Hopen Hlast Hcool. unfold gate, shouldAttemptReset.
  rewrite Hopen, Hlast. simpl.
  by destruct (Z.geb_spec (now - t) (timeout (config cb))); [lia|].
Qed.

Lemma run_snoc (calls : list (Call T E)) c cb :
  run (calls ++ [c]) cb
  = snd (execute (call_now c) (call_operation c) (call_done c)
           (run calls cb)).
Proof. unfold run. by rewrite fold_left_app. Qed.

Lemma config_execute now (op : Outcome T E) done cb :
  config (snd (execute now op done cb)) = config cb.
Proof.
  unfold execute, gate, onSuccess, onFailure.
  destruct cb as [n st f s lf cfg]; simpl.
  destruct st, op; simpl;
    repeat (match goal with
            | |- context [if ?b then _ else _] => destruct b; simpl
            end); reflexivity.
Qed.

Lemma config_run (calls : list (Call T E)) cb :
  config (run calls cb) = config cb.
Proof.
  induction calls as [|c calls IH] using rev_ind; [done|].
  by rewrite run_snoc, config_execute.
Qed.

(** Once open, a failing call leaves the breaker open: it is refused,
    or it is let through half-open and fails. *)
Lemma state_execute_fail_open now (error : E) done cb :
  state cb = Open →
  state (snd (execute (T := T) now (Threw error) done cb)) = Open.
Proof.
  intros Hopen. unfold execute, gate. rewrite Hopen. simpl.
  destruct (shouldAttemptReset now cb); simpl; [done|].
  by rewrite Hopen.
Qed.

Lemma state_execute_fail_half_open now (error : E) done cb :
  state cb = HalfOpen →
  state (snd (execute (T := T) now (Threw error) done cb)) = Open.
Proof.
  intros Hhalf. unfold execute.
  rewrite gate_not_open by congruence. rewrite Hhalf. simpl.
  unfold onFailure. simpl. by rewrite Hhalf.
Qed.

Lemma execute_fail_closed now (error : E) done cb :
  state cb = Closed →
  snd (execute (T := T) now (Threw error) done cb) = onFailure done cb.
Proof.
  intros Hc. unfold execute. rewrite gate_not_open by congruence.
  by rewrite Hc.
Qed.

Lemma counted_step k c cb :
  throws c = true → counted k cb →
  counted (S k)
    (snd (execute (call_now c) (call_operation c) (call_done c) cb)).
Proof.
  unfold throws. destruct (call_operation c) as [|error]; [done|].
  intros _ [Hopen | [Hclosed Hk]].
  - left. by apply state_execute_fail_open.
  - rewrite execute_fail_closed by done.
    unfold counted, onFailure. simpl. rewrite Hclosed. simpl.
    destruct (Z.geb_spec (Z.of_nat (S (failures cb)))
                (failureThreshold (config cb))); simpl.
    + by left.
    + right. split; [done | lia].
Qed.

Lemma counted_run (calls : list (Call T E)) k cb :
  forallb throws calls = true → counted k cb →
  counted (k + length calls) (run calls cb).
Proof.
  revert k cb. induction calls as [|c calls IH]; intros k cb Hall Hk.
  - simpl. by rewrite Nat.add_0_r.
  - simpl in Hall. apply andb_true_iff in Hall as [Hc Hall].
    replace (k + length (c :: calls))%nat
      with (S k + length calls)%nat by (simpl; lia).
    change (run (c :: calls) cb)
      with (run calls
              (snd (execute (call_now c) (call_operation c)
                      (call_done c) cb))).
    apply IH; [done|]. by apply counted_step.
Qed.

(** A failing call never leaves the breaker closed with the failure
    threshold reached. *)
Lemma closed_after_failure_below_threshold c cb :
  throws c = true →
  let cb' :=
    snd (execute (call_now c) (call_operation c) (call_done c) cb) in
  state cb' = Closed →
  Z.of_nat (failures cb') < failureThreshold (config cb').
Proof.
  unfold throws. destruct (call_operation c) as [|error]; [done|].
  intros _. cbv zeta. destruct (state cb) eqn:Hst.
  - rewrite execute_fail_closed by done.
    unfold onFailure. simpl. rewrite Hst. simpl.
    destruct (Z.geb_spec (Z.of_nat (S (failures cb)))
                (failureThreshold (config cb))); simpl; [done|].
    intros _. lia.
  - by rewrite state_execute_fail_open.
  - by rewrite state_execute_fail_half_open.
Qed.

(** As many consecutive failures as the threshold asks for open a
    closed breaker. *)
Lemma failures_open (calls : list (Call T E)) cb :
  state cb = Closed →
  forallb throws calls = true →
  calls ≠ [] →
  failureThreshold (config cb) ≤ Z.of_nat (length calls) →
  state (run calls cb) = Open.
Proof.
  intros Hclosed Hall Hne Hlen.
  assert (Hcount : counted (0 + length calls) (run calls cb)).
  { apply counted_run; [done|]. right. split; [done | lia]. }
  destruct Hcount as [Hopen | [Hc Hk]]; [done|]. exfalso.
  destruct calls as [|c calls _] using rev_ind; [done|].
  rewrite forallb_app in Hall. apply andb_true_iff in Hall as [_ Hc'].
  simpl in Hc'. rewrite andb_true_r in Hc'.
  rewrite run_snoc in Hc, Hk.
  pose proof (closed_after_failure_below_threshold c (run calls cb) Hc' Hc)
    as Hlt.
  rewrite config_execute, config_run in Hlt. simpl in Hk. lia.
Qed.

(** Two consecutive successes close a half-open breaker under the
    success threshold 2. *)
Lemma two_successes_close c1 c2 cb :
  state cb = HalfOpen →
  successThreshold (config cb) = 2 →
  resolves c1 = true → resolves c2 = true →
  state (run [c1; c2] cb) = Closed
  ∧ successes (run [c1; c2] cb) = 0%nat
  ∧ failures (run [c1; c2] cb) = 0%nat.
Proof.
  unfold resolves, run. simpl.
  destruct (call_operation c1) as [v1|]; [|done].
  destruct (call_operation c2) as [v2|]; [|done].
  destruct cb as [n st f s lf [ft st' to]]. simpl.
  intros -> -> _ _. unfold execute, gate, onSuccess. simpl.
  destruct s as [|s]; [done|].
  destruct (Z.geb_spec (Z.of_nat (S (S s))) 2); [done | lia].
Qed.

(** *** C4 *)

(** C4: the breaker's state machine.  (1) With the failure threshold
    5, five consecutive failing [execute] calls on a closed breaker
    leave it open.  (2) On an open breaker whose cooldown has
    elapsed since the last failure, the next [execute] call moves
    it to half-open and invokes the operation in that state; before
    that the call is refused and the breaker stays open.  (3) With
    the success threshold 2, two consecutive successful calls on a
    half-open breaker leave it closed with both counters at zero.
    (4) One failing call on a half-open breaker leaves it open. *)
Theorem circuit_breaker_state_machine :
  (∀ cb (calls : list (Call T E)),
     state cb = Closed →
     failureThreshold (config cb) = 5 →
     length calls = 5%nat →
     forallb throws calls = true →
     state (run calls cb) = Open)
  ∧ (∀ cb now t,
       state cb = Open →
       lastFailure cb = Some t →
       timeout (config cb) ≤ now - t →
       state (gate now cb) = HalfOpen
       ∧ ∀ (operation : Outcome T E) done,
           execute now operation done cb
           = match operation with
             | Resolved value =>
                 (Returned value, onSuccess (set_state HalfOpen cb))
             | Threw error =>
                 (Rethrown error,
                  onFailure done (set_state HalfOpen cb))
             end)
  ∧ (∀ cb now t (operation : Outcome T E) done,
       state cb = Open →
       lastFailure cb = Some t →
       now - t < timeout (config cb) →
       execute now operation done cb
       = (CircuitOpenError (name cb) (timeout (config cb) - (now - t)),
          cb))
  ∧ (∀ cb c1 c2,
       state cb = HalfOpen →
       successThreshold (config cb) = 2 →
       resolves c1 = true → resolves c2 = true →
       state (run [c1; c2] cb) = Closed
       ∧ successes (run [c1; c2] cb) = 0%nat
       ∧ failures (run [c1; c2] cb) = 0%nat)
  ∧ (∀ cb now (error : E) done,
       state cb = HalfOpen →
       state (snd (execute (T := T) now (Threw error) done cb)) = Open).
Proof.
  split_and!.
  - intros cb calls Hclosed Hthr Hlen Hall.
    apply failures_open; try done.
    + intros ->. discriminate.
    + rewrite Hthr, Hlen. lia.
  - intros cb now t Hopen Hlast Hcool.
    rewrite (gate_cooled_down now t) by done. split; [done|].
    intros operation done. unfold execute.
    rewrite (gate_cooled_down now t) by done. simpl.
    by destruct operation.
  - intros cb now t operation done Hopen Hlast Hcool.
    unfold execute. rewrite (gate_cooling now t) by done.
    rewrite Hopen. simpl. unfold getTimeUntilReset. rewrite Hlast.
    do 2 f_equal. lia.
  - intros. by apply two_successes_close.
  - intros. by apply state_execute_fail_half_open.
Qed.

End Facts.

Lemma new_defaults name :
  state (new name None) = Closed
  ∧ failures (new name None) = 0%nat
  ∧ successes (new name None) = 0%nat
  ∧ config (new name None) = mkConfig 5 2 30000.
Proof. done. Qed.

(** The life of one breaker with the default thresholds: five failures
    (the last recorded at 510 ms) open it; at 30510 ms the cooldown of
    30 s is over and the call goes through half-open; two successes
    close it; a failure while half-open opens it again. *)
Lemma circuit_breaker_state_machine_witness :
  state Scenario.breaker_open = Open
  ∧ state (gate 30510 Scenario.breaker_open) = HalfOpen
  ∧ state (run [Scenario.succeeding 30510; Scenario.succeeding 30600]
             Scenario.breaker_half_open) = Closed
  ∧ state (snd (execute (T := string) 30510 (Threw "ETIMEDOUT") 30520
                  Scenario.breaker_half_open)) = Open.
Proof.
  destruct (circuit_breaker_state_machine (T := string) (E := string))
    as (H1 & H2 & _ & H3 & H4).
  assert (Hopen : state Scenario.breaker_open = Open).
  { apply H1; reflexivity. }
  assert (Hhalf : state (gate 30510 Scenario.breaker_open) = HalfOpen).
  { apply (H2 Scenario.breaker_open 30510 510); [exact Hopen | reflexivity |].
    vm_compute. congruence. }
  split_and!.
  - exact Hopen.
  - exact Hhalf.
  - apply H3; [exact Hhalf | reflexivity | reflexivity | reflexivity].
  - apply H4. exact Hhalf.
Defined.

End BreakerFacts.

(** ** The gateway *)
Module GatewayFacts.
Import Registry Gateway.

Section Facts.
Context {Args Json : Type}.
Variable JSON_parse : string → option Json.

(** [callTool] reads the registry and never writes it. *)
Lemma registry_callTool agentId toolName (args : Args) (w : @World Args) :
  registry (gateway (snd (callTool JSON_parse agentId toolName args w)))
  = registry (gateway w).
Proof.
  unfold Gateway.callTool.
  destruct (getAgent agentId (registry (gateway w))); [|done].
  destruct (getClient agentId (registry (gateway w))) as [client|];
    [|done].
  unfold getCircuitBreaker.
  destruct (circuitBreakers (gateway w) !! agentId);
    match goal with
    | |- context [Breaker.execute ?n ?o ?d ?cb] =>
        destruct (Breaker.execute n o d cb) as [[result|[msg|]|cn ms] cb']
    end; reflexivity.
Qed.

Lemma firstSuccess_Some toolName (args : Args) candidates
    (w w' : @World Args) (r : @ToolResult Json) :
  firstSuccess JSON_parse toolName args candidates w = (Some r, w') →
  success r = true
  ∧ ∃ id w0, id ∈ candidates
             ∧ callTool JSON_parse id toolName args w0 = (r, w').
Proof.
  revert w. induction candidates as [|id rest IH]; intros w; simpl.
  - intros [=].
  - destruct (callTool JSON_parse id toolName args w) as [r0 w0]
      eqn:Hcall.
    destruct (success r0) eqn:Hs.
    + intros [= <- <-]. split; [done|].
      exists id, w. split; [left | done].
    + intros H. destruct (IH _ H) as (Hr & id' & w1 & Hin & Hc).
      split; [done|]. exists id', w1. split; [by right | done].
Qed.

(** The loop calls exactly the qualifying fallbacks, in order, until
    one succeeds. *)
Lemma tryFallbacks_firstSuccess primaryAgentId toolName (args : Args)
    fallbackAgentIds (w : @World Args) :
  tryFallbacks JSON_parse primaryAgentId toolName args fallbackAgentIds w
  = match firstSuccess JSON_parse toolName args
            (List.filter (qualifies (registry (gateway w)) toolName)
               fallbackAgentIds) w with
    | (Some r, w') => (r, w')
    | (None, w') => (allFailed primaryAgentId toolName, w')
    end.
Proof.
  revert w. induction fallbackAgentIds as [|id rest IH]; intros w;
    simpl; [done|].
  unfold qualifies at 1.
  destruct (getAgent id (registry (gateway w))) as [agent|]; [|apply IH].
  destruct (AgentStatus_eqb (d_status agent) Healthy); simpl; [|apply IH].
  destruct (existsb (λ t, String.eqb (t_name t) toolName) (d_tools agent));
    simpl; [|apply IH].
  destruct (callTool JSON_parse id toolName args w) as [r w'] eqn:Hcall.
  destruct (success r); [done|].
  rewrite IH.
  replace (registry (gateway w')) with (registry (gateway w)); [done|].
  change w' with (snd (r, w')). rewrite <- Hcall.
  symmetry. apply registry_callTool.
Qed.

Lemma callToolWithFallback_refines primaryAgentId toolName (args : Args)
    fallbackAgentIds (w : @World Args) :
  callToolWithFallback JSON_parse primaryAgentId toolName args
    fallbackAgentIds w
  = spec_callToolWithFallback JSON_parse primaryAgentId toolName args
      fallbackAgentIds w.
Proof.
  unfold Gateway.callToolWithFallback, Gateway.spec_callToolWithFallback.
  simpl.
  destruct (callTool JSON_parse primaryAgentId toolName args w)
    as [r w1] eqn:Hcall.
  destruct (success r); [done|].
  rewrite tryFallbacks_firstSuccess.
  replace (registry (gateway w1)) with (registry (gateway w)); [done|].
  change w1 with (snd (r, w1)). rewrite <- Hcall.
  symmetry. apply registry_callTool.
Qed.

(** *** C7 *)

(** C7: [callToolWithFallback] is the dispatch the specification
    words: the candidates are the primary, then the fallback ids, in
    the given order, whose descriptor exists, is healthy and exposes
    the operation; they are called in that order and the first
    successful result is returned.  So a successful primary is the
    result; a fallback that does not qualify can be struck from the
    list without changing the result or the final state; a
    successful result is the result of calling one of the
    candidates; and when the result is a failure it is the failure
    whose message names the operation and the primary id. *)
Theorem callToolWithFallback_spec primaryAgentId toolName (args : Args)
    fallbackAgentIds (w : @World Args) :
  let run :=
    callToolWithFallback JSON_parse primaryAgentId toolName args
      fallbackAgentIds w in
  let candidates :=
    primaryAgentId
      :: List.filter (qualifies (registry (gateway w)) toolName)
           fallbackAgentIds in
  run = spec_callToolWithFallback JSON_parse primaryAgentId toolName args
          fallbackAgentIds w
  ∧ (success (fst (callTool JSON_parse primaryAgentId toolName args w))
     = true →
     run = callTool JSON_parse primaryAgentId toolName args w)
  ∧ (∀ before id after,
       fallbackAgentIds = before ++ id :: after →
       qualifies (registry (gateway w)) toolName id = false →
       run = callToolWithFallback JSON_parse primaryAgentId toolName args
               (before ++ after) w)
  ∧ (success (fst run) = true →
     ∃ id w0, id ∈ candidates
              ∧ callTool JSON_parse id toolName args w0 = run)
  ∧ (success (fst run) = false →
     fst run = allFailed primaryAgentId toolName
     ∧ error (fst run)
       = Some ("All agents failed for tool " ++ toolName
               ++ ". Primary: " ++ primaryAgentId)%string).
Proof.
  intros run candidates. subst run candidates. split_and!.
  - apply callToolWithFallback_refines.
  - unfold Gateway.callToolWithFallback.
    destruct (callTool JSON_parse primaryAgentId toolName args w)
      as [r w1].
    simpl. by intros ->.
  - intros before id after -> Hq.
    rewrite !callToolWithFallback_refines.
    unfold Gateway.spec_callToolWithFallback.
    rewrite !List.filter_app. simpl. by rewrite Hq.
  - rewrite callToolWithFallback_refines.
    unfold Gateway.spec_callToolWithFallback.
    destruct (firstSuccess JSON_parse toolName args _ w) as [[r|] w']
      eqn:Hfs; simpl; [|done].
    intros _. apply firstSuccess_Some in Hfs as (_ & id & w0 & Hin & Hc).
    by exists id, w0.
  - rewrite callToolWithFallback_refines.
    unfold Gateway.spec_callToolWithFallback.
    destruct (firstSuccess JSON_parse toolName args _ w) as [[r|] w']
      eqn:Hfs; simpl; [|done].
    apply firstSuccess_Some in Hfs as (Hr & _). congruence.
Qed.

End Facts.

(** The specification's scenario.  The primary fails; of the fallbacks
    only ["backup"] qualifies and its result comes back.  Without it no
    fallback qualifies and the failure names the primary. *)
Lemma callToolWithFallback_spec_witness :
  callToolWithFallback Scenario.no_json "primary" "forecast" "{}"
    ["stale"; "other"; "missing"; "backup"] Scenario.world0
  = callToolWithFallback Scenario.no_json "primary" "forecast" "{}"
      ["other"; "missing"; "backup"] Scenario.world0
  ∧ fst (callToolWithFallback Scenario.no_json "primary" "forecast" "{}"
           ["stale"; "other"; "missing"; "backup"] Scenario.world0)
    = mkToolResult true (Some (Text "sunny")) None
  ∧ error (fst (callToolWithFallback Scenario.no_json "primary" "forecast"
                  "{}" ["stale"; "other"; "missing"] Scenario.world0))
    = Some "All agents failed for tool forecast. Primary: primary".
Proof.
  split_and!.
  - destruct (callToolWithFallback_spec Scenario.no_json "primary"
                "forecast" "{}" ["stale"; "other"; "missing"; "backup"]
                Scenario.world0) as (_ & _ & Hskip & _).
    apply (Hskip [] "stale" ["other"; "missing"; "backup"]);
      [reflexivity | vm_compute; reflexivity].
  - vm_compute. reflexivity.
  - destruct (callToolWithFallback_spec Scenario.no_json "primary"
                "forecast" "{}" ["stale"; "other"; "missing"]
                Scenario.world0) as (_ & _ & _ & _ & Hfail).
    apply Hfail. vm_compute. reflexivity.
Defined.

End GatewayFacts.

(* ===================================================================== *)
(** * Part III: further properties of the modelled code *)
(* ===================================================================== *)

(** ** The payment ledger: sums, history and documents *)
Module LedgerLaws.
Import Ledger.

Section Sums.
Variable keep : PaymentEntry → bool.

Lemma fold_sum_acc (es : list PaymentEntry) (acc : Z) :
  fold_left (λ total e, if keep e then total + e_amount e else total) es acc
  = acc + sum_entries keep es.
Proof.
  unfold sum_entries. revert acc.
  induction es as [|e es IH]; intros acc; simpl; [lia|].
  rewrite IH. rewrite (IH (if keep e then _ else _)).
  destruct (keep e); lia.
Qed.

Lemma sum_entries_cons e es :
  sum_entries keep (e :: es) = part keep e + sum_entries keep es.
Proof.
  unfold sum_entries at 1. simpl. rewrite fold_sum_acc. unfold part.
  destruct (keep e); lia.
Qed.

Lemma sum_entries_app es1 es2 :
  sum_entries keep (es1 ++ es2) = sum_entries keep es1 + sum_entries keep es2.
Proof.
  induction es1 as [|e es1 IH]; simpl; [done|].
  rewrite !sum_entries_cons, IH. lia.
Qed.

(** Writing a key replaces the part of the entry found under it. *)
Lemma sum_entries_set k v (m : JsMap.t PaymentEntry) :
  sum_entries keep (JsMap.values (JsMap.set k v m))
  = sum_entries keep (JsMap.values m)
    - from_option (part keep) 0 (JsMap.get k m) + part keep v.
Proof.
  induction m as [|[k' v'] m IH]; simpl.
  - rewrite sum_entries_cons. unfold sum_entries. simpl. lia.
  - destruct (String.eqb k k'); simpl.
    + rewrite !sum_entries_cons. lia.
    + unfold JsMap.values in *. rewrite !sum_entries_cons, IH. lia.
Qed.
End Sums.

Lemma entries_updateStatus today id status error L entry :
  getEntry id L = Some entry →
  entries (updateStatus today id status error L)
  = JsMap.set id (set_error error (set_status status entry)) (entries L).
Proof.
  unfold getEntry, updateStatus. intros ->.
  destruct (Status_eqb status Accepted); [|done].
  by rewrite LedgerFacts.entries_addToDailySpending.
Qed.

Lemma sum_updateStatus keep today id status error L entry :
  getEntry id L = Some entry →
  sum_entries keep (JsMap.values (entries (updateStatus today id status error L)))
  = sum_entries keep (JsMap.values (entries L))
    - part keep entry
    + part keep (set_error error (set_status status entry)).
Proof.
  intros Hget. rewrite (entries_updateStatus _ _ _ _ _ _ Hget).
  rewrite sum_entries_set. unfold getEntry in Hget. by rewrite Hget.
Qed.

(** X1: an update moves the accepted totals by the entry's amount,
    and only when the entry enters or leaves the accepted status.  It
    adds the amount to the total and to the entry's agent when a
    non-accepted entry becomes accepted, subtracts it when an accepted
    entry becomes something else, and changes neither otherwise; the
    spending of every other agent is unchanged. *)
Theorem updateStatus_moves_spending today id status error L entry :
  getEntry id L = Some entry →
  let L' := updateStatus today id status error L in
  let agent := e_agentId entry in
  (e_status entry ≠ Accepted → status = Accepted →
   getTotalSpent L' = getTotalSpent L + e_amount entry
   ∧ getSpentByAgent agent L' = getSpentByAgent agent L + e_amount entry)
  ∧ (e_status entry = Accepted → status ≠ Accepted →
     getTotalSpent L' = getTotalSpent L - e_amount entry
     ∧ getSpentByAgent agent L' = getSpentByAgent agent L - e_amount entry)
  ∧ ((e_status entry = Accepted ↔ status = Accepted) →
     getTotalSpent L' = getTotalSpent L
     ∧ getSpentByAgent agent L' = getSpentByAgent agent L)
  ∧ (∀ other, other ≠ agent →
     getSpentByAgent other L' = getSpentByAgent other L).
Proof.
  intros Hget L' agent. subst L' agent.
  unfold getTotalSpent, getSpentByAgent.
  assert (Hpart : ∀ keep,
    (∀ e, keep (set_error error e) = keep e) →
    part keep (set_error error (set_status status entry))
    = part keep (set_status status entry)).
  { intros keep Hk. unfold part.
    by rewrite Hk, LedgerFacts.e_amount_set_error. }
  assert (Hk1 : ∀ e, Status_eqb (e_status (set_error error e)) Accepted
                     = Status_eqb (e_status e) Accepted)
    by (intros e; by rewrite LedgerFacts.e_status_set_error).
  assert (Hagent : ∀ e, e_agentId (set_error error e) = e_agentId e).
  { intros e. destruct error as [msg|]; simpl; [|done].
    by destruct (String.eqb msg ""). }
  assert (Hk2 : ∀ a e,
    String.eqb (e_agentId (set_error error e)) a
    && Status_eqb (e_status (set_error error e)) Accepted
    = String.eqb (e_agentId e) a && Status_eqb (e_status e) Accepted)
    by (intros a e; by rewrite Hagent, LedgerFacts.e_status_set_error).
  rewrite !(sum_updateStatus _ _ _ _ _ _ _ Hget).
  rewrite (Hpart _ Hk1), (Hpart _ (Hk2 (e_agentId entry))).
  unfold part. simpl. rewrite String.eqb_refl. simpl.
  split_and!.
  - intros Hold ->. simpl.
    destruct (Status_eqb (e_status entry) Accepted) eqn:E;
      [by apply LedgerFacts.Status_eqb_eq in E | lia].
  - intros Hold Hnew. rewrite Hold. simpl.
    destruct (Status_eqb status Accepted) eqn:E;
      [by apply LedgerFacts.Status_eqb_eq in E | lia].
  - intros Hiff.
    destruct (Status_eqb (e_status entry) Accepted) eqn:E1;
    destruct (Status_eqb status Accepted) eqn:E2; try lia.
    + apply LedgerFacts.Status_eqb_eq in E1. apply Hiff in E1.
      apply LedgerFacts.Status_eqb_eq in E1. congruence.
    + apply LedgerFacts.Status_eqb_eq in E2. apply Hiff in E2.
      apply LedgerFacts.Status_eqb_eq in E2. congruence.
  - intros other Hne.
    rewrite (sum_updateStatus _ _ _ _ _ _ _ Hget).
    rewrite (Hpart _ (Hk2 other)). unfold part. simpl.
    assert (String.eqb (e_agentId entry) other = false) as ->
      by (apply String.eqb_neq; congruence).
    simpl. lia.
Qed.

Lemma updateStatus_moves_spending_witness :
  getTotalSpent
    (updateStatus Scenario.day "p1" Accepted None Scenario.ledger_pending)
  = getTotalSpent Scenario.ledger_pending + 5
  ∧ getTotalSpent
      (updateStatus Scenario.day "p1" Rejected None Scenario.ledger_accepted)
    = getTotalSpent Scenario.ledger_accepted - 5.
Proof.
  split.
  - destruct (updateStatus_moves_spending Scenario.day "p1" Accepted None
                Scenario.ledger_pending
                (mkEntry "p1" 1000 "A" "read_sensor" 5 Pending
                   (Some Scenario.req5) (Some "sig-1") None) eq_refl)
      as (H & _).
    apply H; [discriminate | reflexivity].
  - destruct (updateStatus_moves_spending Scenario.day "p1" Rejected None
                Scenario.ledger_accepted
                (mkEntry "p1" 1000 "A" "read_sensor" 5 Accepted
                   (Some Scenario.req5) (Some "sig-1") None) eq_refl)
      as (_ & H & _).
    apply H; [reflexivity | discriminate].
Defined.

(** X2: an authorization recorded under an id not yet in the ledger is
    not spending: the total spent, the spending of every agent and the
    bucket of every day are what they were. *)
Theorem recordAuthorization_fresh_spends_nothing
    now id agentId toolName requirements payment L :
  getEntry id L = None →
  let L' := recordAuthorization now id agentId toolName requirements
              payment L in
  getTotalSpent L' = getTotalSpent L
  ∧ (∀ agent, getSpentByAgent agent L' = getSpentByAgent agent L)
  ∧ (∀ day, getTodaySpending day L' = getTodaySpending day L).
Proof.
  intros Hnone L'. subst L'. unfold getEntry in Hnone.
  unfold getTotalSpent, getSpentByAgent, recordAuthorization. simpl.
  split_and!; [|intros agent|done];
    rewrite sum_entries_set, Hnone; unfold part; simpl;
    rewrite ?andb_false_r; lia.
Qed.

Lemma recordAuthorization_fresh_spends_nothing_witness :
  getTotalSpent
    (recordAuthorization 2000 "p2" "B" "forecast" Scenario.req7 "sig-2"
       Scenario.ledger_accepted)
  = getTotalSpent Scenario.ledger_accepted.
Proof.
  exact (proj1 (recordAuthorization_fresh_spends_nothing 2000 "p2" "B"
                  "forecast" Scenario.req7 "sig-2" Scenario.ledger_accepted
                  eq_refl)).
Defined.

(** *** Documents *)

Lemma get_refill id (es : list PaymentEntry) (m : JsMap.t PaymentEntry) :
  JsMap.get id (fold_left (λ m e, JsMap.set (e_id e) e m) es m)
  = match last_with_id id es with
    | Some e => Some e
    | None => JsMap.get id m
    end.
Proof.
  unfold last_with_id. revert m.
  induction es as [|e es IH]; intros m; [done|].
  cbn [fold_left List.filter]. rewrite IH.
  destruct (String.eqb (e_id e) id) eqn:E.
  - apply String.eqb_eq in E. subst id. rewrite last_cons.
    destruct (last (List.filter _ es)); [done|].
    apply JsMapFacts.get_set_eq.
  - apply String.eqb_neq in E.
    destruct (last (List.filter _ es)); [done|].
    by apply JsMapFacts.get_set_ne.
Qed.

(** X3: after [importFromJson] the entry found under an id is the last
    entry of the document carrying that id, and there is none when the
    document has none: earlier duplicates and everything the ledger
    held before are gone. *)
Theorem importFromJson_lookup data L id :
  getEntry id (importFromJson data L) = last_with_id id (doc_entries data).
Proof.
  unfold getEntry, importFromJson. simpl. rewrite get_refill. simpl.
  by destruct (last_with_id id (doc_entries data)).
Qed.

Lemma refill_fresh (es : list PaymentEntry) (m : JsMap.t PaymentEntry) :
  NoDup (JsMap.keys m ++ map e_id es) →
  fold_left (λ m e, JsMap.set (e_id e) e m) es m
  = m ++ map (λ e, (e_id e, e)) es.
Proof.
  revert m. induction es as [|e es IH]; intros m Hnd; simpl.
  - by rewrite app_nil_r.
  - assert (Hfresh : JsMap.get (e_id e) m = None).
    { apply JsMapFacts.get_None_not_key.
      apply NoDup_app in Hnd as (_ & Hdis & _).
      intros Hin. apply (Hdis _ Hin). left. }
    rewrite JsMapFacts.set_fresh by done.
    rewrite IH.
    + by rewrite <- app_assoc.
    + unfold JsMap.keys in *. rewrite map_app. simpl.
      by rewrite <- app_assoc.
Qed.

(** X4: exporting a ledger right after it imported a document whose
    entries carry pairwise distinct ids gives back that document, with
    the entries in the same order. *)
Theorem exportToJson_importFromJson data L :
  NoDup (map e_id (doc_entries data)) →
  exportToJson (importFromJson data L) = data.
Proof.
  intros Hnd. unfold exportToJson, importFromJson. simpl.
  rewrite refill_fresh by done. simpl.
  unfold JsMap.values. rewrite map_map. simpl. rewrite map_id.
  by destruct data.
Qed.

Lemma exportToJson_importFromJson_witness :
  exportToJson
    (importFromJson (exportToJson Scenario.ledger_two) Scenario.ledger_pending)
  = exportToJson Scenario.ledger_two.
Proof.
  apply exportToJson_importFromJson.
  vm_compute. apply NoDup_cons_2; [|apply NoDup_singleton].
  intros H. apply list_elem_of_singleton in H. discriminate.
Defined.

(** *** Recent entries *)

Lemma insert_recent_Permutation e es : insert_recent e es ≡ₚ e :: es.
Proof.
  induction es as [|x es IH]; simpl; [done|].
  destruct (e_timestamp e <? e_timestamp x); [|done].
  rewrite IH. apply Permutation_swap.
Qed.

Lemma sort_recent_Permutation es : sort_recent es ≡ₚ es.
Proof.
  induction es as [|e es IH]; simpl; [done|].
  by rewrite insert_recent_Permutation, IH.
Qed.

Lemma insert_recent_sorted e es :
  StronglySorted later_or_equal es →
  StronglySorted later_or_equal (insert_recent e es).
Proof.
  induction 1 as [|x es Hs IH Hx]; simpl.
  - repeat constructor.
  - destruct (Z.ltb_spec (e_timestamp e) (e_timestamp x)).
    + constructor; [done|].
      rewrite Forall_forall. intros y Hy.
      rewrite (insert_recent_Permutation e es) in Hy.
      apply elem_of_cons in Hy as [-> | Hy]; [unfold later_or_equal; lia|].
      rewrite Forall_forall in Hx. by apply Hx.
    + constructor; [by constructor|].
      constructor; [unfold later_or_equal; lia|].
      eapply Forall_impl; [exact Hx|].
      unfold later_or_equal. intros y Hy. simpl in *. lia.
Qed.

Lemma sort_recent_sorted es : StronglySorted later_or_equal (sort_recent es).
Proof.
  induction es as [|e es IH]; simpl; [constructor|].
  by apply insert_recent_sorted.
Qed.

(** X5: for a limit that is not negative, [getRecentEntries(limit)]
    returns the [limit] most recent entries, or all of them when there
    are fewer: the result has [min(limit, size)] entries, all taken from
    the ledger, ordered by timestamp from the latest on, and no entry
    left out is later than an entry returned. *)
Theorem getRecentEntries_most_recent limit L :
  0 ≤ limit →
  let recent := getRecentEntries (Some limit) L in
  length recent = Nat.min (Z.to_nat limit) (length (entries L))
  ∧ StronglySorted later_or_equal recent
  ∧ ∃ older,
      recent ++ older ≡ₚ JsMap.values (entries L)
      ∧ ∀ x y, x ∈ recent → y ∈ older → e_timestamp y ≤ e_timestamp x.
Proof.
  intros Hlimit recent. subst recent. unfold getRecentEntries, slice_to.
  simpl. destruct (Z.ltb_spec limit 0); [lia|].
  set (sorted := sort_recent (JsMap.values (entries L))).
  assert (Hperm : sorted ≡ₚ JsMap.values (entries L))
    by apply sort_recent_Permutation.
  assert (Hsorted : StronglySorted later_or_equal sorted)
    by apply sort_recent_sorted.
  split_and!.
  - rewrite length_take. f_equal.
    rewrite (Permutation_length Hperm). unfold JsMap.values.
    by rewrite length_map.
  - rewrite <- (take_drop (Z.to_nat limit) sorted) in Hsorted.
    by apply StronglySorted_app_1_l in Hsorted.
  - exists (drop (Z.to_nat limit) sorted). split.
    + by rewrite take_drop.
    + intros x y Hx Hy.
      rewrite <- (take_drop (Z.to_nat limit) sorted) in Hsorted.
      apply (StronglySorted_app_1_elem_of _ _ _ _ _ Hsorted Hx Hy).
Qed.

Lemma getRecentEntries_most_recent_witness :
  length (getRecentEntries (Some 1) Scenario.ledger_two) = 1%nat
  ∧ e_id <$> getRecentEntries (Some 1) Scenario.ledger_two = ["p2"].
Proof.
  destruct (getRecentEntries_most_recent 1 Scenario.ledger_two ltac:(lia))
    as (Hlen & _).
  split; [exact Hlen | vm_compute; reflexivity].
Defined.



End LedgerLaws.

(** ** The budget manager: reservations *)
Module BudgetLaws.
Import Budget.

Lemma reserve_allowed today ledger uuid agentId amount B :
  allowed (canApprove today ledger B agentId amount) = true →
  fst (reserve today ledger uuid agentId amount B) = Some uuid.
Proof.
  unfold reserve. intros ->. by destruct (agentAllocations B !! agentId).
Qed.

Lemma reserve_denied today ledger uuid agentId amount B :
  allowed (canApprove today ledger B agentId amount) = false →
  reserve today ledger uuid agentId amount B = (None, B).
Proof.
  unfold reserve. intros ->. by destruct (agentAllocations B !! agentId).
Qed.

(** X7: [reserve] hands out its token exactly when [canApprove]
    allows the amount, with or without an allocation; a check that
    passed is never followed by a failed reservation on the same
    state, and a denied reservation leaves the manager as it was. *)
Theorem reserve_iff_canApprove today ledger uuid agentId amount B :
  (allowed (canApprove today ledger B agentId amount) = true →
   fst (reserve today ledger uuid agentId amount B) = Some uuid)
  ∧ (allowed (canApprove today ledger B agentId amount) = false →
     reserve today ledger uuid agentId amount B = (None, B)).
Proof. split; [apply reserve_allowed | apply reserve_denied]. Qed.

Lemma reserve_iff_canApprove_witness :
  fst (reserve Scenario.day Ledger.empty "token-1" "A" 3000000
         Scenario.manager_A) = Some "token-1"
  ∧ reserve Scenario.day Ledger.empty "token-2" "A" 3000000
      Scenario.manager_A_reserved
    = (None, Scenario.manager_A_reserved).
Proof.
  split.
  - apply reserve_iff_canApprove. vm_compute. reflexivity.
  - apply reserve_iff_canApprove. vm_compute. reflexivity.
Defined.

Lemma canApprove_allowed today ledger B agentId amount :
  allowed (canApprove today ledger B agentId amount) = true ↔
  amount ≤ perRequestLimit (config B)
  ∧ Ledger.getTodaySpending today ledger + amount ≤ dailyLimit (config B)
  ∧ Ledger.getTotalSpent ledger + amount ≤ totalBudget (config B)
  ∧ ∀ allocation,
      agentAllocations B !! agentId = Some allocation →
      amount ≤ allocated allocation
               - Ledger.getSpentByAgent agentId ledger
               - reserved allocation.
Proof.
  unfold canApprove.
  destruct (Z.gtb_spec amount (perRequestLimit (config B)));
    [simpl; split; [done | lia]|].
  destruct (Z.gtb_spec (Ledger.getTodaySpending today ledger + amount)
              (dailyLimit (config B))); [simpl; split; [done | lia]|].
  destruct (Z.gtb_spec (Ledger.getTotalSpent ledger + amount)
              (totalBudget (config B))); [simpl; split; [done | lia]|].
  destruct (agentAllocations B !! agentId) as [a|].
  - destruct (Z.gtb_spec amount
                (allocated a - Ledger.getSpentByAgent agentId ledger
                 - reserved a)); simpl.
    + split; [done|]. intros (_ & _ & _ & Hall).
      specialize (Hall a eq_refl). lia.
    + split; [|done]. intros _. split_and!; try done.
      by intros ? [= <-].
  - simpl. split; [|done]. intros _. by split_and!.
Qed.

(** X8: a reservation that is granted fits.  Afterwards, against the
    same ledger, what the agent has spent plus what is reserved for it
    does not exceed its allocation, and the amount respects the
    per-request limit, the daily limit and the total budget. *)
Theorem reserve_within_limits today ledger uuid agentId amount B allocation :
  agentAllocations B !! agentId = Some allocation →
  fst (reserve today ledger uuid agentId amount B) = Some uuid →
  let B' := snd (reserve today ledger uuid agentId amount B) in
  reservedOf agentId B' = Some (reserved allocation + amount)
  ∧ Ledger.getSpentByAgent agentId ledger + (reserved allocation + amount)
    ≤ allocated allocation
  ∧ amount ≤ perRequestLimit (config B)
  ∧ Ledger.getTodaySpending today ledger + amount ≤ dailyLimit (config B)
  ∧ Ledger.getTotalSpent ledger + amount ≤ totalBudget (config B).
Proof.
  intros Hlookup Hsome B'. subst B'.
  destruct (allowed (canApprove today ledger B agentId amount)) eqn:Hallowed.
  - apply canApprove_allowed in Hallowed as (H1 & H2 & H3 & H4).
    specialize (H4 _ Hlookup).
    assert (Hok : allowed (canApprove today ledger B agentId amount) = true)
      by (apply canApprove_allowed; split_and!; try done;
          intros a; rewrite Hlookup; by intros [= <-]).
    unfold reserve, reservedOf. rewrite Hlookup, Hok. simpl.
    rewrite lookup_insert_eq. simpl. split_and!; (done || lia).
  - rewrite (reserve_denied _ _ _ _ _ _ Hallowed) in Hsome. discriminate.
Qed.

Lemma reserve_within_limits_witness :
  reservedOf "A" Scenario.manager_A_reserved = Some (0 + 3000000).
Proof.
  exact (proj1 (reserve_within_limits Scenario.day Ledger.empty "token-1"
                  "A" 3000000 Scenario.manager_A
                  (mkAllocation "A" 5000000 0) eq_refl eq_refl)).
Defined.

Lemma release_after_reserve today ledger uuid agentId amount B :
  (∀ allocation, agentAllocations B !! agentId = Some allocation →
                 0 ≤ reserved allocation) →
  fst (reserve today ledger uuid agentId amount B) = Some uuid →
  releaseReservation agentId amount
    (snd (reserve today ledger uuid agentId amount B))
  = B.
Proof.
  intros Hnonneg Hsome. unfold reserve in *.
  destruct (agentAllocations B !! agentId) as [a|] eqn:Hlookup.
  - destruct (allowed (canApprove today ledger B agentId amount));
      simpl in *; [|discriminate].
    unfold releaseReservation. simpl. rewrite lookup_insert_eq. simpl.
    rewrite insert_insert_eq. specialize (Hnonneg a eq_refl).
    destruct B as [cfg allocs]. simpl in *. f_equal.
    apply insert_id. rewrite Hlookup. f_equal.
    destruct a as [aid al r]. simpl in *. f_equal.
    destruct (Z.gtb_spec (r + amount) amount); lia.
  - destruct (allowed (canApprove today ledger B agentId amount));
      simpl in *; [|discriminate].
    unfold releaseReservation. by rewrite Hlookup.
Qed.

(** X9: releasing what was just reserved undoes the reservation: when
    the agent's reserved counter was not negative, a granted
    [reserve(agentId, amount)] followed by
    [releaseReservation(agentId, amount)] gives back the manager as it
    was, whatever the sign of the amount. *)
Theorem reserve_release_roundtrip today ledger uuid agentId amount B :
  (∀ allocation, agentAllocations B !! agentId = Some allocation →
                 0 ≤ reserved allocation) →
  fst (reserve today ledger uuid agentId amount B) = Some uuid →
  releaseReservation agentId amount
    (snd (reserve today ledger uuid agentId amount B))
  = B.
Proof. apply release_after_reserve. Qed.

Lemma reserve_release_roundtrip_witness :
  releaseReservation "A" 3000000 Scenario.manager_A_reserved
  = Scenario.manager_A.
Proof.
  apply (reserve_release_roundtrip Scenario.day Ledger.empty "token-1" "A"
           3000000 Scenario.manager_A).
  - intros allocation H.
    assert (Hl : agentAllocations Scenario.manager_A !! "A"
                 = Some (mkAllocation "A" 5000000 0)) by reflexivity.
    rewrite Hl in H. injection H as <-. simpl. lia.
  - reflexivity.
Defined.

(** X10: approval is closed downwards: when [canApprove] allows an
    amount it allows every smaller amount for the same agent on the
    same state. *)
Theorem canApprove_downward_closed today ledger B agentId amount smaller :
  smaller ≤ amount →
  allowed (canApprove today ledger B agentId amount) = true →
  allowed (canApprove today ledger B agentId smaller) = true.
Proof.
  intros Hle Hallowed.
  apply canApprove_allowed in Hallowed as (H1 & H2 & H3 & H4).
  apply canApprove_allowed. split_and!; try lia.
  intros a Ha. specialize (H4 a Ha). lia.
Qed.

Lemma canApprove_downward_closed_witness :
  allowed (canApprove Scenario.day Ledger.empty Scenario.manager_A_reserved
             "A" 1000000) = true.
Proof.
  apply (canApprove_downward_closed _ _ _ _ 2000000); [lia|].
  vm_compute. reflexivity.
Defined.

(** *** What reservations leave alone *)

Lemma step_frame B op :
  is_allocate op = false →
  config (step B op) = config B
  ∧ ∀ agentId,
      allocated <$> agentAllocations (step B op) !! agentId
      = allocated <$> agentAllocations B !! agentId.
Proof.
  destruct op as [|today ledger uuid id amount|id amount]; simpl;
    [done| |]; intros _.
  - unfold reserve.
    destruct (agentAllocations B !! id) as [a|] eqn:E;
      destruct (allowed (canApprove today ledger B id amount)); simpl;
      split; try done.
    intros agentId. rewrite lookup_insert. case_decide; [|done].
    subst. by rewrite E.
  - unfold releaseReservation.
    destruct (agentAllocations B !! id) as [a|] eqn:E; simpl;
      split; try done.
    intros agentId. rewrite lookup_insert. case_decide; [|done].
    subst. by rewrite E.
Qed.

(** X11: reserving and releasing never move a ceiling.  After any
    sequence of [reserve] and [releaseReservation] calls the
    configuration is unchanged, no allocation has appeared or
    disappeared, and every agent's allocated amount is what it was. *)
Theorem reservations_keep_ceilings ops B :
  forallb (λ op, negb (is_allocate op)) ops = true →
  config (run ops B) = config B
  ∧ ∀ agentId,
      allocated <$> agentAllocations (run ops B) !! agentId
      = allocated <$> agentAllocations B !! agentId.
Proof.
  revert B. induction ops as [|op ops IH]; intros B Hops; [done|].
  simpl in Hops. apply andb_true_iff in Hops as [Hop Hops].
  apply negb_true_iff in Hop.
  destruct (step_frame B op Hop) as [Hc Ha].
  destruct (IH (step B op) Hops) as [Hc' Ha'].
  change (run (op :: ops) B) with (run ops (step B op)).
  split; [congruence|]. intros agentId. by rewrite Ha', Ha.
Qed.

Lemma reservations_keep_ceilings_witness :
  allocated <$>
    agentAllocations
      (run [Reserve Scenario.day Ledger.empty "token-1" "A" 3000000;
            Release "A" 1000000; Release "C" 5]
         Scenario.manager_A) !! "A"
  = Some 5000000.
Proof.
  destruct (reservations_keep_ceilings
              [Reserve Scenario.day Ledger.empty "token-1" "A" 3000000;
               Release "A" 1000000; Release "C" 5]
              Scenario.manager_A eq_refl) as [_ H].
  rewrite H. reflexivity.
Defined.

(** X12: reservations of one agent are invisible to the others: a
    [reserve] or a [releaseReservation] for one agent changes no
    verdict of [canApprove] for a different agent. *)
Theorem canApprove_other_agent today ledger uuid agentId amount B
    today' ledger' other amount' :
  other ≠ agentId →
  canApprove today' ledger'
    (snd (reserve today ledger uuid agentId amount B)) other amount'
  = canApprove today' ledger' B other amount'
  ∧ canApprove today' ledger' (releaseReservation agentId amount B)
      other amount'
    = canApprove today' ledger' B other amount'.
Proof.
  intros Hne. split.
  - unfold reserve.
    destruct (agentAllocations B !! agentId) as [a|];
      destruct (allowed (canApprove today ledger B agentId amount));
      simpl; try done.
    unfold canApprove. simpl. by rewrite lookup_insert_ne.
  - unfold releaseReservation.
    destruct (agentAllocations B !! agentId) as [a|]; [|done].
    unfold canApprove. simpl. by rewrite lookup_insert_ne.
Qed.

Lemma canApprove_other_agent_witness :
  canApprove Scenario.day Ledger.empty Scenario.manager_A_reserved "C" 7
  = canApprove Scenario.day Ledger.empty Scenario.manager_A "C" 7.
Proof.
  exact (proj1 (canApprove_other_agent Scenario.day Ledger.empty "token-1"
                  "A" 3000000 Scenario.manager_A Scenario.day Ledger.empty
                  "C" 7 ltac:(discriminate))).
Defined.

End BudgetLaws.

(** ** The master treasurer: authorizing a payment *)
Module TreasurerLaws.
Import Treasurer.

Section Laws.
Context {Value : Type}.
Variable truthy : Value → bool.
Variable toString : Value → string.

(** X13: a payment request that is not authorized changes nothing.
    With no requirement, or when the budget check denies the first
    requirement's amount, [onPaymentRequired] returns nothing and the
    ledger, the reservations and the correlations are untouched. *)
Theorem onPaymentRequired_denied_no_effect
    wallet today now reservationId authorizationId requirements context T :
  (requirements = []
   ∨ ∃ requirement rest,
       requirements = requirement :: rest
       ∧ Budget.allowed
           (Budget.canApprove today (ledger T) (budgetManager T)
              (extractAgentId truthy toString context)
              (Ledger.maxAmountRequired requirement)) = false) →
  onPaymentRequired truthy toString wallet today now reservationId
    authorizationId requirements context T
  = (None, T).
Proof.
  intros [-> | (requirement & rest & -> & Hdeny)]; [done|].
  unfold onPaymentRequired. by rewrite Hdeny.
Qed.

(** X14: no partial state survives a wallet failure.  When the wallet
    cannot create the payment and the agent's reserved counter was not
    negative, [onPaymentRequired] returns nothing and leaves the
    treasurer exactly as it was: the reservation it had taken is
    released, nothing is recorded and no correlation is kept. *)
Theorem onPaymentRequired_wallet_failure
    wallet today now reservationId authorizationId requirement rest
    context T :
  wallet requirement = None →
  (∀ allocation,
     Budget.agentAllocations (budgetManager T)
       !! extractAgentId truthy toString context = Some allocation →
     0 ≤ Budget.reserved allocation) →
  onPaymentRequired truthy toString wallet today now reservationId
    authorizationId (requirement :: rest) context T
  = (None, T).
Proof.
  intros Hwallet Hnonneg. unfold onPaymentRequired.
  destruct (Budget.allowed (Budget.canApprove _ _ _ _ _)) eqn:Hallowed;
    [|done].
  simpl.
  pose proof (BudgetLaws.reserve_allowed today (ledger T) reservationId
                _ _ _ Hallowed) as Hsome.
  pose proof (BudgetLaws.release_after_reserve today (ledger T)
                reservationId _ _ _ Hnonneg Hsome) as Hback.
  destruct (Budget.reserve _ _ _ _ _ _) as [[token|] B1]; simpl in *;
    [|discriminate].
  rewrite Hwallet, Hback. by destruct T.
Qed.

(** X15: an authorized payment.  When the budget check allows the first
    requirement's amount and the wallet creates the payment,
    [onPaymentRequired] returns that payment with the new
    authorization id; the amount is reserved for the agent, a pending
    ledger entry of that amount is filed under the authorization id
    for the agent and tool taken from the context, the correlation is
    remembered, and only the first requirement plays a part. *)
Theorem onPaymentRequired_authorized
    wallet today now reservationId authorizationId requirement rest
    context T payment :
  let agentId := extractAgentId truthy toString context in
  let toolName := extractToolName truthy toString context in
  let amount := Ledger.maxAmountRequired requirement in
  Budget.allowed
    (Budget.canApprove today (ledger T) (budgetManager T) agentId amount)
  = true →
  wallet requirement = Some payment →
  let result :=
    onPaymentRequired truthy toString wallet today now reservationId
      authorizationId (requirement :: rest) context T in
  fst result = Some (mkAuthorization payment authorizationId)
  ∧ budgetManager (snd result)
    = snd (Budget.reserve today (ledger T) reservationId agentId amount
             (budgetManager T))
  ∧ Ledger.getEntry authorizationId (ledger (snd result))
    = Some (Ledger.mkEntry authorizationId now agentId toolName amount
              Ledger.Pending (Some requirement) (Some payment) None)
  ∧ (∀ id, id ≠ authorizationId →
       Ledger.getEntry id (ledger (snd result))
       = Ledger.getEntry id (ledger T))
  ∧ pendingContexts (snd result)
    = <[authorizationId := mkContext agentId toolName]> (pendingContexts T)
  ∧ result
    = onPaymentRequired truthy toString wallet today now reservationId
        authorizationId [requirement] context T.
Proof.
  intros agentId toolName amount Hallowed Hwallet result.
  subst result agentId toolName amount. unfold onPaymentRequired.
  rewrite Hallowed. simpl.
  pose proof (BudgetLaws.reserve_allowed today (ledger T) reservationId
                _ _ _ Hallowed) as Hsome.
  destruct (Budget.reserve _ _ _ _ _ _) as [[token|] B1]; simpl in *;
    [|discriminate].
  rewrite Hwallet. simpl. split_and!; try done.
  - unfold Ledger.getEntry. simpl. apply JsMapFacts.get_set_eq.
  - intros id Hne. unfold Ledger.getEntry. simpl.
    by apply JsMapFacts.get_set_ne.
Qed.

(** X16: authorization followed by a refusal is undone in the budget.
    After a payment was authorized under an id not used before, a
    status rejected, declined or error for that authorization releases
    the reservation so that the budget manager and the correlations are
    what they were before the authorization (the agent's reserved
    counter not being negative); the ledger keeps the entry, now
    rejected or in error, and the total spent is unchanged. *)
Theorem authorize_then_refuse
    wallet today now reservationId authorizationId requirement rest
    context T payment today' status :
  let agentId := extractAgentId truthy toString context in
  let amount := Ledger.maxAmountRequired requirement in
  Budget.allowed
    (Budget.canApprove today (ledger T) (budgetManager T) agentId amount)
  = true →
  wallet requirement = Some payment →
  Ledger.getEntry authorizationId (ledger T) = None →
  pendingContexts T !! authorizationId = None →
  (∀ allocation,
     Budget.agentAllocations (budgetManager T) !! agentId = Some allocation →
     0 ≤ Budget.reserved allocation) →
  status ∈ ["rejected"; "declined"; "error"] →
  let T1 :=
    snd (onPaymentRequired truthy toString wallet today now reservationId
           authorizationId (requirement :: rest) context T) in
  let T2 :=
    onStatus today' status (mkAuthorization payment authorizationId) T1 in
  budgetManager T2 = budgetManager T
  ∧ pendingContexts T2 = pendingContexts T
  ∧ Ledger.e_status <$> Ledger.getEntry authorizationId (ledger T2)
    = Some (ledgerStatusOf status)
  ∧ ledgerStatusOf status ≠ Ledger.Pending
  ∧ ledgerStatusOf status ≠ Ledger.Accepted
  ∧ Ledger.getTotalSpent (ledger T2) = Ledger.getTotalSpent (ledger T).
Proof.
  intros agentId amount Hallowed Hwallet Hfresh Hnoctx Hnonneg Hstatus T1 T2.
  subst T2 T1 agentId amount. unfold onPaymentRequired.
  rewrite Hallowed. simpl.
  pose proof (BudgetLaws.reserve_allowed today (ledger T) reservationId
                _ _ _ Hallowed) as Hsome.
  pose proof (BudgetLaws.release_after_reserve today (ledger T)
                reservationId _ _ _ Hnonneg Hsome) as Hback.
  destruct (Budget.reserve _ _ _ _ _ _) as [[token|] B1]; simpl in *;
    [|discriminate].
  rewrite Hwallet. simpl.
  set (entry := Ledger.mkEntry authorizationId now
                  (extractAgentId truthy toString context)
                  (extractToolName truthy toString context)
                  (Ledger.maxAmountRequired requirement) Ledger.Pending
                  (Some requirement) (Some payment) None).
  set (L1 := Ledger.recordAuthorization now authorizationId _ _ requirement
               payment (ledger T)).
  assert (Hentry : Ledger.getEntry authorizationId L1 = Some entry)
    by (unfold Ledger.getEntry; simpl; apply JsMapFacts.get_set_eq).
  assert (Hterminal : isTerminalStatus status = true
                      ∧ String.eqb status "accepted" = false
                      ∧ String.eqb status "sending" = false
                      ∧ ledgerStatusOf status ≠ Ledger.Pending
                      ∧ ledgerStatusOf status ≠ Ledger.Accepted).
  { rewrite !elem_of_cons, elem_of_nil in Hstatus.
    destruct Hstatus as [-> | [-> | [-> | []]]]; by vm_compute. }
  destruct Hterminal as (Hterm & Hacc & Hsend & Hnp & Hna).
  unfold onStatus. simpl. rewrite Hacc, Hsend, Hterm. simpl.
  rewrite lookup_insert_eq, LedgerFacts.getEntry_updateStatus, Hentry.
  simpl. split_and!; try done.
  - by apply delete_insert_id.
  - pose proof (LedgerLaws.sum_updateStatus
                  (λ e, Ledger.Status_eqb (Ledger.e_status e) Ledger.Accepted)
                  today' authorizationId (ledgerStatusOf status) None L1
                  entry Hentry) as Hsum.
    unfold Ledger.getTotalSpent. rewrite Hsum. unfold Ledger.part. simpl.
    destruct (Ledger.Status_eqb (ledgerStatusOf status) Ledger.Accepted)
      eqn:E; [by apply LedgerFacts.Status_eqb_eq in E|].
    subst L1. simpl. rewrite LedgerLaws.sum_entries_set.
    unfold Ledger.getEntry in Hfresh. rewrite Hfresh. unfold Ledger.part.
    simpl. lia.
Qed.

(** X17: an accepted payment keeps its reservation.  After a payment
    was authorized under an id not used before and then reported
    accepted, the amount counts as spent by the agent and is still
    reserved for it, so the amount the agent may still be approved for
    has fallen by twice the payment; the correlation is dropped. *)
Theorem authorize_then_accept
    wallet today now reservationId authorizationId requirement rest
    context T payment today' allocation :
  let agentId := extractAgentId truthy toString context in
  let amount := Ledger.maxAmountRequired requirement in
  Budget.allowed
    (Budget.canApprove today (ledger T) (budgetManager T) agentId amount)
  = true →
  wallet requirement = Some payment →
  Ledger.getEntry authorizationId (ledger T) = None →
  pendingContexts T !! authorizationId = None →
  Budget.agentAllocations (budgetManager T) !! agentId = Some allocation →
  let T1 :=
    snd (onPaymentRequired truthy toString wallet today now reservationId
           authorizationId (requirement :: rest) context T) in
  let T2 :=
    onStatus today' "accepted" (mkAuthorization payment authorizationId) T1 in
  Budget.reservedOf agentId (budgetManager T2)
  = Some (Budget.reserved allocation + amount)
  ∧ Ledger.getSpentByAgent agentId (ledger T2)
    = Ledger.getSpentByAgent agentId (ledger T) + amount
  ∧ Ledger.getTotalSpent (ledger T2)
    = Ledger.getTotalSpent (ledger T) + amount
  ∧ pendingContexts T2 = pendingContexts T.
Proof.
  intros agentId amount Hallowed Hwallet Hfresh Hnoctx Halloc T1 T2.
  subst T2 T1 agentId amount. unfold onPaymentRequired.
  rewrite Hallowed. simpl.
  assert (Hres : Budget.reserve today (ledger T) reservationId
                   (extractAgentId truthy toString context)
                   (Ledger.maxAmountRequired requirement) (budgetManager T)
                 = (Some reservationId,
                    Budget.mkManager (Budget.config (budgetManager T))
                      (<[extractAgentId truthy toString context :=
                           Budget.mkAllocation (Budget.a_agentId allocation)
                             (Budget.allocated allocation)
                             (Budget.reserved allocation
                              + Ledger.maxAmountRequired requirement)]>
                         (Budget.agentAllocations (budgetManager T))))).
  { unfold Budget.reserve. by rewrite Halloc, Hallowed. }
  rewrite Hres, Hwallet. simpl.
  set (entry := Ledger.mkEntry authorizationId now
                  (extractAgentId truthy toString context)
                  (extractToolName truthy toString context)
                  (Ledger.maxAmountRequired requirement) Ledger.Pending
                  (Some requirement) (Some payment) None).
  set (L1 := Ledger.recordAuthorization now authorizationId _ _ requirement
               payment (ledger T)).
  assert (Hentry : Ledger.getEntry authorizationId L1 = Some entry)
    by (unfold Ledger.getEntry; simpl; apply JsMapFacts.get_set_eq).
  unfold onStatus. simpl. split_and!.
  - unfold Budget.reservedOf. simpl. by rewrite lookup_insert_eq.
  - unfold Ledger.getSpentByAgent.
    rewrite (LedgerLaws.sum_updateStatus _ today' authorizationId
               Ledger.Accepted None L1 entry Hentry).
    unfold Ledger.part. simpl. rewrite String.eqb_refl. simpl.
    subst L1. simpl. rewrite LedgerLaws.sum_entries_set.
    unfold Ledger.getEntry in Hfresh. rewrite Hfresh. unfold Ledger.part.
    simpl. rewrite andb_false_r. lia.
  - unfold Ledger.getTotalSpent.
    rewrite (LedgerLaws.sum_updateStatus _ today' authorizationId
               Ledger.Accepted None L1 entry Hentry).
    unfold Ledger.part. simpl.
    subst L1. simpl. rewrite LedgerLaws.sum_entries_set.
    unfold Ledger.getEntry in Hfresh. rewrite Hfresh. unfold Ledger.part.
    simpl. lia.
  - by apply delete_insert_id.
Qed.

End Laws.

Lemma onPaymentRequired_denied_no_effect_witness :
  onPaymentRequired Scenario.truthy_string Scenario.string_of_string
    Scenario.wallet_signs Scenario.day 1000 "token-1" "p1"
    [Ledger.mkRequirements 6000000 "exact/base-sepolia"]
    (Some Scenario.context_A) Scenario.treasurer_idle
  = (None, Scenario.treasurer_idle).
Proof.
  apply onPaymentRequired_denied_no_effect. right.
  exists (Ledger.mkRequirements 6000000 "exact/base-sepolia"), [].
  split; [reflexivity | vm_compute; reflexivity].
Defined.

Lemma onPaymentRequired_wallet_failure_witness :
  onPaymentRequired Scenario.truthy_string Scenario.string_of_string
    Scenario.wallet_fails Scenario.day 1000 "token-1" "p1"
    [Scenario.req5] (Some Scenario.context_A) Scenario.treasurer_idle
  = (None, Scenario.treasurer_idle).
Proof.
  apply onPaymentRequired_wallet_failure; [reflexivity|].
  intros allocation H.
  assert (Hl : Budget.agentAllocations
                 (budgetManager Scenario.treasurer_idle)
                 !! extractAgentId Scenario.truthy_string
                      Scenario.string_of_string (Some Scenario.context_A)
               = Some (Budget.mkAllocation "A" 100 0))
    by (vm_compute; reflexivity).
  rewrite Hl in H. injection H as <-. simpl. lia.
Defined.

Lemma onPaymentRequired_authorized_witness :
  onPaymentRequired Scenario.truthy_string Scenario.string_of_string
    Scenario.wallet_signs Scenario.day 1000 "token-1" "p1"
    [Scenario.req5; Scenario.req7] (Some Scenario.context_A)
    Scenario.treasurer_idle
  = onPaymentRequired Scenario.truthy_string Scenario.string_of_string
      Scenario.wallet_signs Scenario.day 1000 "token-1" "p1"
      [Scenario.req5] (Some Scenario.context_A) Scenario.treasurer_idle
  ∧ fst (onPaymentRequired Scenario.truthy_string Scenario.string_of_string
           Scenario.wallet_signs Scenario.day 1000 "token-1" "p1"
           [Scenario.req5; Scenario.req7] (Some Scenario.context_A)
           Scenario.treasurer_idle)
    = Some Scenario.auth_p1.
Proof.
  destruct (onPaymentRequired_authorized Scenario.truthy_string
              Scenario.string_of_string Scenario.wallet_signs Scenario.day
              1000 "token-1" "p1" Scenario.req5 [Scenario.req7]
              (Some Scenario.context_A) Scenario.treasurer_idle "sig-1")
    as (Hfst & _ & _ & _ & _ & Hfirst);
    [vm_compute; reflexivity | reflexivity |].
  split; [exact Hfirst | exact Hfst].
Defined.

Lemma authorize_then_refuse_witness :
  budgetManager
    (onStatus Scenario.day "declined" Scenario.auth_p1
       (snd (onPaymentRequired Scenario.truthy_string
               Scenario.string_of_string Scenario.wallet_signs Scenario.day
               1000 "token-1" "p1" [Scenario.req5]
               (Some Scenario.context_A) Scenario.treasurer_idle)))
  = budgetManager Scenario.treasurer_idle.
Proof.
  refine (proj1 (authorize_then_refuse Scenario.truthy_string
                   Scenario.string_of_string Scenario.wallet_signs
                   Scenario.day 1000 "token-1" "p1" Scenario.req5 []
                   (Some Scenario.context_A) Scenario.treasurer_idle "sig-1"
                   Scenario.day "declined" _ _ _ _ _ _)).
  - vm_compute. reflexivity.
  - reflexivity.
  - reflexivity.
  - reflexivity.
  - intros allocation H.
    assert (Hl : Budget.agentAllocations
                   (budgetManager Scenario.treasurer_idle)
                   !! extractAgentId Scenario.truthy_string
                        Scenario.string_of_string (Some Scenario.context_A)
                 = Some (Budget.mkAllocation "A" 100 0))
      by (vm_compute; reflexivity).
    rewrite Hl in H. injection H as <-. simpl. lia.
  - rewrite !elem_of_cons. right. left. reflexivity.
Defined.

Lemma authorize_then_accept_witness :
  Budget.reservedOf "A"
    (budgetManager
       (onStatus Scenario.day "accepted" Scenario.auth_p1
          (snd (onPaymentRequired Scenario.truthy_string
                  Scenario.string_of_string Scenario.wallet_signs
                  Scenario.day 1000 "token-1" "p1" [Scenario.req5]
                  (Some Scenario.context_A) Scenario.treasurer_idle))))
  = Some (0 + 5).
Proof.
  refine (proj1 (authorize_then_accept Scenario.truthy_string
                   Scenario.string_of_string Scenario.wallet_signs
                   Scenario.day 1000 "token-1" "p1" Scenario.req5 []
                   (Some Scenario.context_A) Scenario.treasurer_idle "sig-1"
                   Scenario.day (Budget.mkAllocation "A" 100 0)
                   _ _ _ _ _)).
  - vm_compute. reflexivity.
  - reflexivity.
  - reflexivity.
  - reflexivity.
  - vm_compute. reflexivity.
Defined.

End TreasurerLaws.

(** ** The circuit breaker: refusals, invariants, reset *)
Module BreakerLaws.
Import Breaker.

Section Laws.
Context {T E : Type}.
Implicit Types (cb : CircuitBreaker) (c : Call T E).



Lemma consistent_execute now (operation : Outcome T E) done cb :
  0 < failureThreshold (config cb) →
  0 < successThreshold (config cb) →
  consistent cb →
  consistent (snd (execute now operation done cb)).
Proof.
  intros Hf Hs. unfold consistent, execute, gate, onSuccess, onFailure.
  destruct cb as [n st f s lf cfg]. simpl in *.
  destruct st; simpl.
  - intros [Hzero Hlt]. subst s. destruct operation; simpl;
      [split; [done | lia]|].
    destruct (Z.geb_spec (Z.of_nat (S f)) (failureThreshold cfg)); simpl;
      [split; [done | by eexists] | split; [done | lia]].
  - intros [Hzero Hlast]. subst s.
    destruct (shouldAttemptReset now _) eqn:Hreset; simpl; [|done].
    destruct operation; simpl.
    + match goal with
      | |- context [?a >=? ?b] => destruct (Z.geb_spec a b)
      end; simpl; [split; [done | lia] | split; [lia | done]].
    + split; [done | by eexists].
  - intros [Hlt Hlast]. destruct operation; simpl.
    + destruct (Z.geb_spec (Z.of_nat (S s)) (successThreshold cfg)); simpl;
        [split; [done | lia] | split; [lia | done]].
    + split; [done | by eexists].
Qed.

(** X19: the breaker's invariant.  With positive thresholds, whatever
    calls a new breaker has seen: its success counter is zero unless
    it is half-open, where it is below the success threshold; while it
    is closed its failure counter is below the failure threshold; and
    while it is open or half-open the time of the last failure is
    known. *)
Theorem run_consistent name cfg (calls : list (Call T E)) :
  0 < failureThreshold (config (new name cfg)) →
  0 < successThreshold (config (new name cfg)) →
  consistent (run calls (new name cfg)).
Proof.
  intros Hf Hs.
  induction calls as [|c calls IH] using rev_ind.
  - unfold consistent. simpl. split; [done | simpl in Hf; lia].
  - rewrite BreakerFacts.run_snoc. apply consistent_execute; [| |done].
    + by rewrite BreakerFacts.config_run.
    + by rewrite BreakerFacts.config_run.
Qed.

Lemma name_execute now (operation : Outcome T E) done cb :
  name (snd (execute now operation done cb)) = name cb.
Proof.
  unfold execute, gate, onSuccess, onFailure.
  destruct cb as [n st f s lf cfg]; simpl.
  destruct st, operation; simpl;
    repeat (match goal with
            | |- context [if ?b then _ else _] => destruct b; simpl
            end); reflexivity.
Qed.

Lemma name_run (calls : list (Call T E)) cb : name (run calls cb) = name cb.
Proof.
  induction calls as [|c calls IH] using rev_ind; [done|].
  by rewrite BreakerFacts.run_snoc, name_execute.
Qed.

(** X20: [reset] forgets the history: after any sequence of calls, a
    reset breaker is the breaker its constructor built, closed with
    both counters at zero, no last failure, and the same name and
    thresholds. *)
Theorem reset_run_is_new name cfg (calls : list (Call T E)) :
  reset (run calls (new name cfg)) = new name cfg.
Proof.
  unfold reset. rewrite name_run, BreakerFacts.config_run. reflexivity.
Qed.

(** Failures below the threshold are only counted. *)
Lemma failures_counted (calls : list (Call T E)) cb :
  state cb = Closed →
  forallb throws calls = true →
  Z.of_nat (failures cb + length calls) < failureThreshold (config cb) →
  state (run calls cb) = Closed
  ∧ failures (run calls cb) = (failures cb + length calls)%nat.
Proof.
  revert cb. induction calls as [|c calls IH]; intros cb Hclosed Hall Hlt.
  - simpl. split; [done | lia].
  - simpl in Hall. apply andb_true_iff in Hall as [Hc Hall].
    change (run (c :: calls) cb)
      with (run calls
              (snd (execute (call_now c) (call_operation c)
                      (call_done c) cb))).
    unfold throws in Hc.
    destruct (call_operation c) as [|error]; [done|].
    rewrite BreakerFacts.execute_fail_closed by done.
    assert (Hstep : state (onFailure (call_done c) cb) = Closed
                    ∧ failures (onFailure (call_done c) cb)
                      = S (failures cb)
                    ∧ config (onFailure (call_done c) cb) = config cb).
    { unfold onFailure. simpl. rewrite Hclosed. simpl.
      destruct (Z.geb_spec (Z.of_nat (S (failures cb)))
                  (failureThreshold (config cb))); simpl in *; [lia|].
      by rewrite ?Hclosed. }
    destruct Hstep as (Hst & Hfail & Hcfg).
    destruct (IH (onFailure (call_done c) cb) Hst Hall) as [H1 H2].
    + rewrite Hfail, Hcfg. simpl in Hlt. lia.
    + split; [done|]. rewrite H2, Hfail. simpl. lia.
Qed.

(** X21: only consecutive failures open the breaker.  On a closed
    breaker, failing calls that keep the failure counter below the
    threshold leave it closed and are counted one by one, and one
    successful call puts the counter back to zero, so failures before
    a success never add up with failures after it. *)
Theorem success_clears_failures (calls : list (Call T E)) c cb :
  state cb = Closed →
  forallb throws calls = true →
  resolves c = true →
  Z.of_nat (failures cb + length calls) < failureThreshold (config cb) →
  state (run calls cb) = Closed
  ∧ failures (run calls cb) = (failures cb + length calls)%nat
  ∧ state (run (calls ++ [c]) cb) = Closed
  ∧ failures (run (calls ++ [c]) cb) = 0%nat.
Proof.
  intros Hclosed Hall Hc Hlt.
  destruct (failures_counted calls cb Hclosed Hall Hlt) as [Hst Hfail].
  split_and!; try done.
  - rewrite BreakerFacts.run_snoc. unfold resolves in Hc.
    destruct (call_operation c) as [value|]; [|done].
    unfold execute. rewrite BreakerFacts.gate_not_open by congruence.
    rewrite Hst. simpl. unfold onSuccess. simpl. by rewrite Hst.
  - rewrite BreakerFacts.run_snoc. unfold resolves in Hc.
    destruct (call_operation c) as [value|]; [|done].
    unfold execute. rewrite BreakerFacts.gate_not_open by congruence.
    rewrite Hst. simpl. unfold onSuccess. simpl. by rewrite Hst.
Qed.

End Laws.


Lemma run_consistent_witness :
  consistent Scenario.breaker_open.
Proof.
  apply (run_consistent (T := string) (E := string) "weather" None
           Scenario.five_failures); vm_compute; reflexivity.
Defined.

Lemma success_clears_failures_witness :
  failures
    (run [Scenario.failing 100; Scenario.failing 200; Scenario.failing 300;
          Scenario.failing 400; Scenario.succeeding 500]
       Scenario.breaker_new) = 0%nat.
Proof.
  destruct (success_clears_failures
              [Scenario.failing 100; Scenario.failing 200;
               Scenario.failing 300; Scenario.failing 400]
              (Scenario.succeeding 500) Scenario.breaker_new)
    as (_ & _ & _ & H); try reflexivity.
Defined.

End BreakerLaws.

(** ** The gateway: one call *)
Module GatewayLaws.
Import Registry Gateway.

Section Laws.
Context {Args Json : Type}.
Variable JSON_parse : string → option Json.

(** What a call through a connected agent does to the gateway. *)
Lemma callTool_connected agentId toolName (args : Args) (w : @World Args)
    agent client :
  getAgent agentId (registry (gateway w)) = Some agent →
  getClient agentId (registry (gateway w)) = Some client →
  let cb := fst (getCircuitBreaker agentId (gateway w)) in
  let response := client toolName args (now w) in
  let after :=
    Breaker.execute (now w) (r_outcome response) (r_finished response) cb in
  gateway (snd (callTool JSON_parse agentId toolName args w))
  = mkGateway (registry (gateway w))
      (<[agentId := snd after]> (circuitBreakers (gateway w)))
      (config (gateway w))
  ∧ now (snd (callTool JSON_parse agentId toolName args w))
    = match fst after with
      | Breaker.CircuitOpenError _ _ => now w
      | _ => r_finished response
      end
  ∧ fst (callTool JSON_parse agentId toolName args w)
    = match fst after with
      | Breaker.Returned result => parseResult JSON_parse result
      | Breaker.Rethrown (ErrorObject message) => failure message
      | Breaker.Rethrown OtherValue => failure "Unknown error occurred"
      | Breaker.CircuitOpenError circuitName retryAfterMs =>
          failure ("Agent " ++ agentId ++ " is temporarily unavailable. "
                   ++ circuitOpenMessage circuitName retryAfterMs)%string
      end.
Proof.
  intros Hagent Hclient cb response after. subst after response cb.
  unfold Gateway.callTool. rewrite Hagent, Hclient.
  unfold getCircuitBreaker.
  destruct (circuitBreakers (gateway w) !! agentId) as [cb|]; simpl;
    match goal with
    | |- context [Breaker.execute ?n ?o ?d ?b] =>
        destruct (Breaker.execute n o d b) as [[result|[msg|]|cn ms] cb']
    end; simpl; rewrite ?insert_insert_eq; done.
Qed.

(** X22: a call to an agent the registry does not know, or to one it
    has no connection to, fails with a message naming the agent and
    touches nothing: no breaker is created and the clock is not
    consulted. *)
Theorem callTool_unreachable agentId toolName (args : Args)
    (w : @World Args) :
  (getAgent agentId (registry (gateway w)) = None →
   callTool JSON_parse agentId toolName args w
   = (failure ("Agent not found: " ++ agentId)%string, w))
  ∧ (is_Some (getAgent agentId (registry (gateway w))) →
     getClient agentId (registry (gateway w)) = None →
     callTool JSON_parse agentId toolName args w
     = (failure ("No connection to agent: " ++ agentId)%string, w)).
Proof.
  unfold Gateway.callTool. split.
  - by intros ->.
  - intros [agent ->] ->. done.
Qed.

(** X23: faults are isolated per agent.  A call for one agent leaves
    the registry, the gateway's configuration and the breaker of every
    other agent exactly as they were; the only breaker it can create
    or change is the called agent's. *)
Theorem callTool_isolated agentId toolName (args : Args) (w : @World Args) :
  let w' := snd (callTool JSON_parse agentId toolName args w) in
  registry (gateway w') = registry (gateway w)
  ∧ config (gateway w') = config (gateway w)
  ∧ ∀ other, other ≠ agentId →
      circuitBreakers (gateway w') !! other
      = circuitBreakers (gateway w) !! other.
Proof.
  intros w'. subst w'.
  destruct (getAgent agentId (registry (gateway w))) as [agent|] eqn:Hagent.
  - destruct (getClient agentId (registry (gateway w))) as [client|]
      eqn:Hclient.
    + destruct (callTool_connected agentId toolName args w agent client
                  Hagent Hclient) as (-> & _). simpl.
      split_and!; try done. intros other Hne. by rewrite lookup_insert_ne.
    + unfold Gateway.callTool. by rewrite Hagent, Hclient.
  - unfold Gateway.callTool. by rewrite Hagent.
Qed.

(** X24: an open circuit answers for the agent.  While the agent's
    breaker is open and its cooldown has not elapsed, a call is
    answered with the temporarily-unavailable failure carrying the
    retry hint, whatever the client would have replied, and the world
    is unchanged: the remote is not invoked, the clock does not advance
    and the breaker is as before. *)
Theorem callTool_circuit_open agentId toolName (args : Args)
    (w : @World Args) agent client cb t :
  getAgent agentId (registry (gateway w)) = Some agent →
  getClient agentId (registry (gateway w)) = Some client →
  circuitBreakers (gateway w) !! agentId = Some cb →
  Breaker.state cb = Breaker.Open →
  Breaker.lastFailure cb = Some t →
  now w - t < Breaker.timeout (Breaker.config cb) →
  callTool JSON_parse agentId toolName args w
  = (failure ("Agent " ++ agentId ++ " is temporarily unavailable. "
              ++ circuitOpenMessage (Breaker.name cb)
                   (Breaker.timeout (Breaker.config cb) - (now w - t)))%string,
     w).
Proof.
  intros Hagent Hclient Hcb Hopen Hlast Hcool.
  destruct (callTool_connected agentId toolName args w agent client
              Hagent Hclient) as (Hg & Hnow & Hres).
  unfold getCircuitBreaker in *. rewrite Hcb in *. simpl in *.
  assert (Hexec : ∀ (operation : Breaker.Outcome CallToolResult Thrown) done,
    Breaker.execute (now w) operation done cb
    = (Breaker.CircuitOpenError (Breaker.name cb)
         (Breaker.timeout (Breaker.config cb) - (now w - t)), cb)).
  { intros operation done. unfold Breaker.execute.
    rewrite (BreakerFacts.gate_cooling (now w) t) by done.
    rewrite Hopen. simpl. unfold Breaker.getTimeUntilReset. rewrite Hlast.
    do 2 f_equal. lia. }
  rewrite Hexec in *. simpl in *.
  rewrite (surjective_pairing (callTool _ _ _ _ _)). rewrite Hres.
  f_equal. destruct (snd (callTool _ _ _ _ _)) as [G' now'].
  simpl in *. subst. rewrite insert_id by done.
  by destruct w as [[R bs c] n].
Qed.

(** X25: what the breaker counts.  When the call is let through by a
    closed breaker, or by one created for this call, a reply of the
    remote counts as a success for the breaker even when the reply is
    a tool error ([isError]): the result is a failure and the breaker
    stays closed with its failure counter at zero.  Only a thrown
    call is recorded as a failure. *)
Theorem callTool_counts_only_thrown agentId toolName (args : Args)
    (w : @World Args) agent client :
  getAgent agentId (registry (gateway w)) = Some agent →
  getClient agentId (registry (gateway w)) = Some client →
  let cb := fst (getCircuitBreaker agentId (gateway w)) in
  let response := client toolName args (now w) in
  let w' := snd (callTool JSON_parse agentId toolName args w) in
  Breaker.state cb = Breaker.Closed →
  (∀ result, r_outcome response = Breaker.Resolved result →
     success (fst (callTool JSON_parse agentId toolName args w))
     = negb (isError result)
     ∧ circuitBreakers (gateway w') !! agentId = Some (Breaker.onSuccess cb)
     ∧ Breaker.state (Breaker.onSuccess cb) = Breaker.Closed
     ∧ Breaker.failures (Breaker.onSuccess cb) = 0%nat)
  ∧ (∀ error, r_outcome response = Breaker.Threw error →
       success (fst (callTool JSON_parse agentId toolName args w)) = false
       ∧ circuitBreakers (gateway w') !! agentId
         = Some (Breaker.onFailure (r_finished response) cb)
       ∧ Breaker.failures (Breaker.onFailure (r_finished response) cb)
         = S (Breaker.failures cb)).
Proof.
  intros Hagent Hclient cb response w' Hclosed. subst w'.
  destruct (callTool_connected agentId toolName args w agent client
              Hagent Hclient) as (Hg & _ & Hres).
  fold cb in Hg, Hres. fold response in Hg, Hres.
  rewrite Hg, Hres. simpl. rewrite lookup_insert_eq.
  unfold Breaker.execute.
  rewrite BreakerFacts.gate_not_open by congruence. rewrite Hclosed. simpl.
  split.
  - intros result ->. simpl. split_and!.
    + unfold parseResult. by destruct (isError result).
    + done.
    + unfold Breaker.onSuccess. simpl. by rewrite Hclosed.
    + unfold Breaker.onSuccess. simpl. by rewrite Hclosed.
  - intros error ->. simpl. split_and!.
    + by destruct error.
    + done.
    + unfold Breaker.onFailure. simpl. rewrite Hclosed. simpl.
      by destruct (_ >=? _).
Qed.

Lemma reset_breakers (G : @SubAgentGateway Args) agentId :
  (∀ id,
     circuitBreakers (resetAllCircuitBreakers G) !! id
     = Breaker.reset <$> circuitBreakers G !! id)
  ∧ circuitBreakers (resetCircuitBreaker agentId G) !! agentId
    = Breaker.reset <$> circuitBreakers G !! agentId
  ∧ (∀ other, other ≠ agentId →
       circuitBreakers (resetCircuitBreaker agentId G) !! other
       = circuitBreakers G !! other).
Proof.
  split_and!.
  - intros id. unfold resetAllCircuitBreakers. simpl. apply lookup_fmap.
  - unfold resetCircuitBreaker.
    destruct (circuitBreakers G !! agentId) as [cb|] eqn:E; simpl.
    + by rewrite lookup_insert_eq.
    + by rewrite E.
  - intros other Hne. unfold resetCircuitBreaker.
    destruct (circuitBreakers G !! agentId) as [cb|]; simpl; [|done].
    by rewrite lookup_insert_ne.
Qed.

Lemma callTool_closed agentId toolName (args : Args) (w : @World Args)
    agent client :
  getAgent agentId (registry (gateway w)) = Some agent →
  getClient agentId (registry (gateway w)) = Some client →
  Breaker.state (fst (getCircuitBreaker agentId (gateway w)))
  = Breaker.Closed →
  fst (callTool JSON_parse agentId toolName args w)
  = reported JSON_parse (client toolName args (now w)).
Proof.
  intros Hagent Hclient Hclosed.
  destruct (callTool_connected agentId toolName args w agent client
              Hagent Hclient) as (_ & _ & ->).
  unfold Breaker.execute, reported.
  rewrite BreakerFacts.gate_not_open by congruence. rewrite Hclosed. simpl.
  by destruct (r_outcome (client toolName args (now w))) as [r|[m|]].
Qed.

(** X26: a reset lets traffic through again.  After
    [resetAllCircuitBreakers], or after [resetCircuitBreaker] for the
    agent, the next call to a connected agent is never refused by its
    breaker: the remote is invoked and the result is what its reply or
    its thrown error yields.  [resetCircuitBreaker] changes no other
    agent's breaker. *)
Theorem reset_readmits agentId toolName (args : Args)
    (G : @SubAgentGateway Args) clock agent client :
  getAgent agentId (registry G) = Some agent →
  getClient agentId (registry G) = Some client →
  fst (callTool JSON_parse agentId toolName args
         (mkWorld (resetAllCircuitBreakers G) clock))
  = reported JSON_parse (client toolName args clock)
  ∧ fst (callTool JSON_parse agentId toolName args
           (mkWorld (resetCircuitBreaker agentId G) clock))
    = reported JSON_parse (client toolName args clock)
  ∧ ∀ other, other ≠ agentId →
      circuitBreakers (resetCircuitBreaker agentId G) !! other
      = circuitBreakers G !! other.
Proof.
  intros Hagent Hclient.
  destruct (reset_breakers G agentId) as (Hall & Hone & Hother).
  split_and!; [| |done].
  - apply (callTool_closed agentId toolName args
             (mkWorld (resetAllCircuitBreakers G) clock) agent client);
      simpl; try done.
    unfold getCircuitBreaker. simpl. rewrite lookup_fmap.
    by destruct (circuitBreakers G !! agentId).
  - assert (Hreg : registry (resetCircuitBreaker agentId G) = registry G)
      by (unfold resetCircuitBreaker;
          by destruct (circuitBreakers G !! agentId)).
    apply (callTool_closed agentId toolName args
             (mkWorld (resetCircuitBreaker agentId G) clock) agent client);
      simpl; rewrite ?Hreg; try done.
    unfold getCircuitBreaker. rewrite Hone.
    by destruct (circuitBreakers G !! agentId).
Qed.

End Laws.

Lemma callTool_unreachable_witness :
  callTool Scenario.no_json "missing" "forecast" "{}" Scenario.world0
  = (failure "Agent not found: missing", Scenario.world0).
Proof.
  apply (proj1 (callTool_unreachable Scenario.no_json "missing" "forecast"
                  "{}" Scenario.world0)).
  vm_compute. reflexivity.
Defined.

Lemma callTool_isolated_witness :
  circuitBreakers (gateway (Scenario.call_primary Scenario.world_tripped))
    !! "backup"
  = circuitBreakers (gateway Scenario.world_tripped) !! "backup".
Proof.
  destruct (callTool_isolated Scenario.no_json "primary" "forecast" "{}"
              Scenario.world_tripped) as (_ & _ & H).
  apply H. discriminate.
Defined.

Lemma callTool_circuit_open_witness :
  callTool Scenario.no_json "primary" "forecast" "{}" Scenario.world_tripped
  = (failure
       "Agent primary is temporarily unavailable. Circuit breaker 'primary' is open. Retry after 30s",
     Scenario.world_tripped).
Proof.
  assert (Hcb : ∃ cb,
    circuitBreakers (gateway Scenario.world_tripped) !! "primary" = Some cb
    ∧ Breaker.state cb = Breaker.Open
    ∧ Breaker.lastFailure cb = Some 25
    ∧ Breaker.name cb = "primary"
    ∧ Breaker.timeout (Breaker.config cb) = 30000).
  { eexists. split; [vm_compute; reflexivity|]. by vm_compute. }
  destruct Hcb as (cb & Hcb & Hopen & Hlast & Hname & Htimeout).
  rewrite (callTool_circuit_open Scenario.no_json "primary" "forecast" "{}"
             Scenario.world_tripped
             (mkAgent "primary" "Primary" "http://a" Healthy
                [Scenario.tool_forecast])
             Scenario.client_down cb 25); try done.
  - rewrite Hname, Htimeout. vm_compute. reflexivity.
  - rewrite Htimeout. vm_compute. reflexivity.
Defined.

Lemma callTool_counts_only_thrown_witness :
  success (fst (callTool Scenario.no_json "backup" "forecast" "{}"
                  Scenario.world0)) = true.
Proof.
  destruct (callTool_counts_only_thrown Scenario.no_json "backup" "forecast"
              "{}" Scenario.world0
              (mkAgent "backup" "Backup" "http://d" Healthy
                 [Scenario.tool_forecast])
              Scenario.client_up eq_refl eq_refl eq_refl) as [H _].
  destruct (H (mkCallToolResult false [mkContent "text" "sunny"]) eq_refl)
    as [Hs _].
  exact Hs.
Defined.

Lemma reset_readmits_witness :
  fst (callTool Scenario.no_json "primary" "forecast" "{}"
         (mkWorld (resetAllCircuitBreakers (gateway Scenario.world_tripped))
            25))
  = failure "ECONNREFUSED".
Proof.
  destruct (reset_readmits Scenario.no_json "primary" "forecast" "{}"
              (gateway Scenario.world_tripped) 25
              (mkAgent "primary" "Primary" "http://a" Healthy
                 [Scenario.tool_forecast])
              Scenario.client_down) as [H _];
    [vm_compute; reflexivity | vm_compute; reflexivity|].
  rewrite H. reflexivity.
Defined.

End GatewayLaws.

(** ** The router's fallbacks meet the gateway's test *)
Module RouterLaws.
Import Registry Gateway Router.

Section Laws.
Context {Args Json : Type}.
Variable JSON_parse : string → option Json.



End Laws.


End RouterLaws.

(** ** The session manager *)
Module SessionLaws.
Import Session.

Section MapFacts.
Context {V : Type}.
Implicit Types (m : JsMap.t V) (k : string) (v : V).

Lemma delete_fresh_prefix k v (pre rest : JsMap.t V) :
  k ∉ JsMap.keys pre →
  JsMap.delete k (pre ++ (k, v) :: rest) = pre ++ rest.
Proof.
  induction pre as [|[k' v'] pre IH]; simpl; intros Hnot.
  - by rewrite String.eqb_refl.
  - unfold JsMap.keys in Hnot. simpl in Hnot.
    apply not_elem_of_cons in Hnot as [Hne Hnot].
    destruct (String.eqb k k') eqn:E.
    + apply String.eqb_eq in E. congruence.
    + by rewrite IH.
Qed.

Lemma get_elem_NoDup k v m :
  NoDup (JsMap.keys m) → (k, v) ∈ m → JsMap.get k m = Some v.
Proof.
  induction m as [|[k' v'] m IH]; simpl; intros Hnd Hin.
  - by apply elem_of_nil in Hin.
  - unfold JsMap.keys in Hnd. simpl in Hnd.
    apply NoDup_cons in Hnd as [Hnot Hnd].
    apply elem_of_cons in Hin as [[= <- <-] | Hin].
    + by rewrite String.eqb_refl.
    + destruct (String.eqb k k') eqn:E; [|by apply IH].
      apply String.eqb_eq in E. subst k'. exfalso. apply Hnot.
      apply list_elem_of_fmap. by exists (k, v).
Qed.
End MapFacts.

Section Laws.
Context {Value : Type}.
Implicit Types (M : SessionManager Value) (message : Message Value).

Lemma getOrCreate_result now sessionId M :
  let '(session, M1) := getOrCreate now sessionId M in
  JsMap.get sessionId (sessions M1) = Some session
  ∧ messages session = from_option messages [] (get sessionId M)
  ∧ variables session = from_option variables ∅ (get sessionId M)
  ∧ ∀ other, other ≠ sessionId →
      JsMap.get other (sessions M1) = JsMap.get other (sessions M).
Proof.
  unfold getOrCreate, get.
  destruct (JsMap.get sessionId (sessions M)) as [session|]; simpl;
    (split_and!; [apply JsMapFacts.get_set_eq | done | done |]);
    intros other Hne; by apply JsMapFacts.get_set_ne.
Qed.

(** X28: a session keeps its 50 most recent messages.  After
    [addMessage] the session's history is the old history followed by
    the new message, cut down to its last 50 entries: it never has
    more than 50 messages, the message added is the last one, and the
    session is created if it did not exist; other sessions are not
    touched. *)
Theorem addMessage_keeps_recent now done sessionId message M :
  let old := getHistory sessionId None M in
  let M' := addMessage now done sessionId message M in
  let new := getHistory sessionId None M' in
  new = drop (length old + 1 - 50) (old ++ [message])
  ∧ length new = Nat.min (length old + 1) 50
  ∧ last new = Some message
  ∧ ∀ other, other ≠ sessionId → get other M' = get other M.
Proof.
  intros old M' new. subst new M' old. unfold addMessage, getHistory.
  pose proof (getOrCreate_result now sessionId M) as Hgc.
  destruct (getOrCreate now sessionId M) as [session M1].
  destruct Hgc as (Hget & Hmsgs & _ & Hother). simpl.
  rewrite JsMapFacts.get_set_eq. simpl.
  unfold get in Hmsgs.
  assert (Hold : messages session
                 = match JsMap.get sessionId (sessions M) with
                   | Some s => messages s
                   | None => []
                   end)
    by (rewrite Hmsgs; by destruct (JsMap.get sessionId (sessions M))).
  rewrite <- Hold.
  set (pushed := messages session ++ [message]).
  assert (Hlen : length pushed = (length (messages session) + 1)%nat)
    by (subst pushed; rewrite length_app; simpl; lia).
  assert (Hkept :
    (if (maxMessages <? length pushed)%nat
     then slice_from (- Z.of_nat maxMessages) pushed
     else pushed)
    = drop (length (messages session) + 1 - 50) pushed).
  { unfold maxMessages, slice_from.
    destruct (Nat.ltb_spec 50 (length pushed)).
    - simpl. f_equal. lia.
    - replace (length (messages session) + 1 - 50)%nat with 0%nat by lia.
      done. }
  rewrite Hkept. split_and!.
  - done.
  - rewrite length_drop. lia.
  - subst pushed. rewrite drop_app_le by lia. apply last_snoc.
  - intros other Hne. unfold get. simpl.
    rewrite JsMapFacts.get_set_ne by done. by apply Hother.
Qed.

(** X29: a variable that was set is read back.  After
    [setVariable(sessionId, key, value)], [getVariable] returns the
    value for that key of that session, creating the session if
    needed; every other variable of every session reads as before and
    no history changes. *)
Theorem setVariable_getVariable now sessionId key (value : Value) M :
  let M' := setVariable now sessionId key value M in
  getVariable sessionId key M' = Some value
  ∧ (∀ sessionId' key',
       (sessionId', key') ≠ (sessionId, key) →
       getVariable sessionId' key' M' = getVariable sessionId' key' M)
  ∧ ∀ sessionId' limit,
      getHistory sessionId' limit M' = getHistory sessionId' limit M.
Proof.
  intros M'. subst M'. unfold setVariable.
  pose proof (getOrCreate_result now sessionId M) as Hgc.
  destruct (getOrCreate now sessionId M) as [session M1].
  destruct Hgc as (Hget & Hmsgs & Hvars & Hother).
  unfold getVariable, getHistory, get in *. simpl. split_and!.
  - rewrite JsMapFacts.get_set_eq. simpl. by rewrite lookup_insert_eq.
  - intros sessionId' key' Hne.
    destruct (decide (sessionId' = sessionId)) as [->|Hs].
    + rewrite JsMapFacts.get_set_eq. simpl.
      rewrite lookup_insert_ne by congruence. rewrite Hvars.
      by destruct (JsMap.get sessionId (sessions M)).
    + rewrite JsMapFacts.get_set_ne by done. by rewrite Hother.
  - intros sessionId' limit.
    destruct (decide (sessionId' = sessionId)) as [->|Hs].
    + rewrite JsMapFacts.get_set_eq. simpl. rewrite Hmsgs.
      destruct (JsMap.get sessionId (sessions M)); simpl; [done|].
      destruct limit as [l|]; [|done].
      unfold slice_from. simpl.
      destruct (l =? 0), (- l <? 0); by rewrite ?drop_nil.
    + rewrite JsMapFacts.get_set_ne by done. by rewrite Hother.
Qed.

Lemma cleanup_loop now (pre es : JsMap.t (Session Value)) (cleaned : nat) :
  NoDup (JsMap.keys (pre ++ es)) →
  fold_left
    (λ acc entry,
       if expired now (snd entry)
       then (JsMap.delete (fst entry) (fst acc), S (snd acc))
       else acc)
    es (pre ++ es, cleaned)
  = (pre ++ List.filter (λ entry, negb (expired now (snd entry))) es,
     (cleaned + length (List.filter (λ entry, expired now (snd entry)) es))%nat).
Proof.
  revert pre cleaned. induction es as [|[k v] es IH]; intros pre cleaned Hnd.
  - simpl. by rewrite Nat.add_0_r.
  - cbn [fold_left List.filter fst snd].
    destruct (expired now v) eqn:Hexp; cbn [negb].
    + assert (Hfresh : k ∉ JsMap.keys pre).
      { unfold JsMap.keys in *. rewrite map_app in Hnd.
        apply NoDup_app in Hnd as (_ & Hdis & _).
        intros Hin. apply (Hdis k Hin). left. }
      rewrite delete_fresh_prefix by done.
      rewrite IH.
      * simpl. f_equal. lia.
      * unfold JsMap.keys in *. rewrite map_app in *. simpl in Hnd.
        apply NoDup_app in Hnd as (Hpre & Hdis & Hes).
        apply NoDup_cons in Hes as [_ Hes].
        apply NoDup_app. split_and!; try done.
        intros x Hx Hx'. apply (Hdis x Hx). by right.
    + replace (pre ++ (k, v) :: es) with ((pre ++ [(k, v)]) ++ es)
        by (by rewrite <- app_assoc).
      rewrite IH by (by rewrite <- app_assoc).
      by rewrite <- app_assoc.
Qed.

(** X30: [cleanupExpired] removes the sessions idle for more than an
    hour and only those.  Given the map's distinct keys, the sessions
    left are, in order, the ones whose last activity is at most
    3600000 ms before [now]; each is unchanged; and the number
    returned is the number of sessions removed. *)
Theorem cleanupExpired_exact now M :
  NoDup (JsMap.keys (sessions M)) →
  let M' := fst (cleanupExpired now M) in
  let cleaned := snd (cleanupExpired now M) in
  sessions M'
  = List.filter (λ entry, negb (expired now (snd entry))) (sessions M)
  ∧ (cleaned + getSessionCount M')%nat = getSessionCount M
  ∧ ∀ sessionId session,
      get sessionId M' = Some session ↔
      get sessionId M = Some session
      ∧ now - lastActivity session ≤ sessionTimeout.
Proof.
  intros Hnd M' cleaned. subst M' cleaned. unfold cleanupExpired.
  pose proof (cleanup_loop now [] (sessions M) 0 Hnd) as Hloop.
  cbn [app Nat.add] in Hloop.
  destruct (fold_left _ (sessions M) (sessions M, 0%nat))
    as [kept cleaned] eqn:Hfold.
  assert (Hres : (kept, cleaned)
                 = (List.filter (λ entry, negb (expired now (snd entry)))
                      (sessions M),
                    length (List.filter (λ entry, expired now (snd entry))
                              (sessions M))))
    by (rewrite <- Hfold; exact Hloop).
  injection Hres as -> ->. clear Hfold. simpl.
  set (keep := λ entry : string * Session Value,
                 negb (expired now (snd entry))).
  assert (Hnd' : NoDup (JsMap.keys (List.filter keep (sessions M)))).
  { unfold JsMap.keys in *. clear Hloop.
    induction (sessions M) as [|[k v] m IH]; simpl; [constructor|].
    simpl in Hnd. apply NoDup_cons in Hnd as [Hnot Hnd].
    destruct (keep (k, v)); simpl; [|by apply IH].
    apply NoDup_cons. split; [|by apply IH].
    intros Hin. apply Hnot. apply list_elem_of_fmap in Hin as ([k' v'] & -> & Hin).
    apply list_elem_of_In, List.filter_In in Hin as [Hin _].
    apply list_elem_of_fmap. exists (k', v'). split; [done|].
    by apply list_elem_of_In. }
  split_and!.
  - done.
  - unfold getSessionCount. simpl. subst keep.
    clear. induction (sessions M) as [|[k v] m IH]; simpl; [done|].
    destruct (expired now v); simpl; simpl in IH; lia.
  - intros sessionId session. unfold get. simpl. split.
    + intros Hget. apply JsMapFacts.get_Some_elem in Hget.
      apply list_elem_of_In, List.filter_In in Hget as [Hin Hkeep].
      split.
      * apply get_elem_NoDup; [done | by apply list_elem_of_In].
      * unfold keep, expired in Hkeep. simpl in Hkeep.
        apply negb_true_iff in Hkeep.
        by destruct (Z.gtb_spec (now - lastActivity session) sessionTimeout).
    + intros [Hget Hfresh]. apply get_elem_NoDup; [done|].
      apply list_elem_of_In, List.filter_In. split.
      * by apply list_elem_of_In, JsMapFacts.get_Some_elem.
      * unfold keep, expired. simpl. apply negb_true_iff.
        destruct (Z.gtb_spec (now - lastActivity session) sessionTimeout);
          [lia | done].
Qed.

End Laws.

Lemma addMessage_keeps_recent_witness :
  getHistory "s1" None
    (addMessage 2000 2001 "s1"
       (mkMessage Assistant "hi" 2000 None) Scenario.sessions_two)
  = [Scenario.hello; mkMessage Assistant "hi" 2000 None]
  ∧ get "s2"
      (addMessage 2000 2001 "s1"
         (mkMessage Assistant "hi" 2000 None) Scenario.sessions_two)
    = get "s2" Scenario.sessions_two.
Proof.
  destruct (addMessage_keeps_recent 2000 2001 "s1"
              (mkMessage Assistant "hi" 2000 None) Scenario.sessions_two)
    as (Hnew & _ & _ & Hother).
  split; [rewrite Hnew; vm_compute; reflexivity|].
  apply Hother. discriminate.
Defined.

Lemma setVariable_getVariable_witness :
  getVariable "s1" "room"
    (setVariable 2000 "s1" "room" "kitchen" Scenario.sessions_two)
  = Some "kitchen"
  ∧ getVariable "s2" "room"
      (setVariable 2000 "s1" "room" "kitchen" Scenario.sessions_two)
    = getVariable "s2" "room" Scenario.sessions_two.
Proof.
  destruct (setVariable_getVariable 2000 "s1" "room" "kitchen"
              Scenario.sessions_two) as (Hset & Hother & _).
  split; [exact Hset|]. apply Hother. discriminate.
Defined.

Lemma cleanupExpired_exact_witness :
  getActiveSessions (fst (cleanupExpired 4000000 Scenario.sessions_two))
  = ["s2"]
  ∧ snd (cleanupExpired 4000000 Scenario.sessions_two) = 1%nat.
Proof.
  assert (Hnd : NoDup (JsMap.keys (sessions Scenario.sessions_two))).
  { vm_compute. apply NoDup_cons_2; [|apply NoDup_singleton].
    intros H. apply list_elem_of_singleton in H. discriminate. }
  destruct (cleanupExpired_exact 4000000 Scenario.sessions_two Hnd)
    as (Hs & _ & _).
  split; [|vm_compute; reflexivity].
  unfold getActiveSessions. rewrite Hs. vm_compute. reflexivity.
Defined.

End SessionLaws.
